(** * Verification of the message relay in [src/server.ts]

    The development embeds the per-channel batching engine
    ([addMessageToBatch], [drainMessageBatch]), the channel policy
    ([shouldRespondInChannel]), the immediate dispatch path
    ([processAndSendMessage]), the [messageCreate] handler, the reply
    quotation helper ([truncateMessage]) and the delay computation of
    [startRandomEventTimer].

    Modelling conventions.
    - A JavaScript string is a [string]; [length] and [substring] count
      characters the way the source counts UTF-16 code units.
    - The two module-level [Map]s are [gmap]s keyed by channel id.  The
      runtime's table of armed timeouts is part of the state, so that
      [setTimeout] / [clearTimeout] are ordinary state updates and a timer
      that is armed but no longer referenced by [channelBatchTimers] would be
      visible.
    - An [async] function is cut at its [await]s.  The batching engine is a
      step function over scheduler events (an enqueue, a timeout firing, the
      settling of a pending backend call or platform send), which is what
      lets an enqueue fall between the start of a drain and its completion.
    - Calls into the agent backend ([sendMessage] of [./messages], which is
      imported by the source) and into the chat platform are recorded as
      effects; their results are supplied from outside.
    - [console.log] output is not modelled; [console.error] is, with the text
      of its message and without the pictograph that starts it in the source.
    - A JavaScript number is a binary64 value.  The integers of the batching
      engine (lengths, the size limit, times in milliseconds) stay far below
      2^53 and are written in [Z]; the delay of the random event timer, where
      a product with a random fraction is rounded, is computed in [Binary64].
    - [setTimeout] arms a timeout after the delay Node keeps: a delay below
      1 or above 2^31 - 1 is replaced by 1. *)

From Stdlib Require Import ZArith QArith String Ascii DecimalString Lia.
From stdpp Require Import base option list gmap strings.

Local Open Scope Z_scope.
Local Open Scope stdpp_scope.

(** ** Strings *)

Module Js.

(** Rendering of a non-negative integer inside a template literal. *)
Definition string_of_nat (n : nat) : string :=
  NilZero.string_of_uint (Nat.to_uint n).

(** The line feed written ['\n'] in the source. *)
Definition nl : string := String (ascii_of_nat 10) EmptyString.

(** [Array.prototype.join]. *)
Definition join (sep : string) (l : list string) : string :=
  String.concat sep l.

(** [s.substring(0, n)] for [n >= 0]. *)
Definition substring0 (n : nat) (s : string) : string :=
  String.substring 0 n s.

(** [s.startsWith(p)]. *)
Definition startsWith (p s : string) : bool := String.prefix p s.

(** [s !== ''], the test the source applies to a backend response. *)
Definition nonempty (s : string) : bool := negb (String.eqb s EmptyString).

(** Truthiness of a value of type [string | undefined]. *)
Definition truthy (o : option string) : bool :=
  match o with
  | Some s => nonempty s
  | None => false
  end.

(** The double quote character. *)
Definition dquote : string := String (ascii_of_nat 34) EmptyString.

End Js.

(** ** Numbers

    A finite binary64 value is written [mantissa * 2 ^ exponent]; the pair
    need not be normalised.  Every operation computes the exact result and
    rounds it to the nearest value with a 53-bit mantissa and an exponent of
    at least -1074, ties to the even mantissa.  Overflow to infinity (beyond
    2^1024) and NaN are not modelled. *)

Module Binary64.

Record t := mk { mantissa : Z; exponent : Z }.

Definition emin : Z := -1074.

(** [M / 2 ^ k] rounded to the nearest integer, ties to even. *)
Definition shift_rne (M k : Z) : Z :=
  let q := M / 2 ^ k in
  let rest := M mod 2 ^ k in
  let half := 2 ^ (k - 1) in
  if rest <? half then q
  else if half <? rest then q + 1
  else if Z.even q then q else q + 1.

(** The binary64 value nearest to [M * 2 ^ E]. *)
Definition round (M E : Z) : t :=
  let k := Z.max (Z.log2 (Z.abs M) - 52) (emin - E) in
  if 0 <? k then mk (shift_rne M k) (E + k) else mk M E.

(** An integer literal or the result of [parseInt]. *)
Definition of_Z (z : Z) : t := round z 0.

Definition opp (x : t) : t := mk (- mantissa x) (exponent x).

(** [x + y] *)
Definition add (x y : t) : t :=
  let e := Z.min (exponent x) (exponent y) in
  round (mantissa x * 2 ^ (exponent x - e) + mantissa y * 2 ^ (exponent y - e))
        e.

(** [x - y] *)
Definition sub (x y : t) : t := add x (opp y).

(** [x * y] *)
Definition mul (x y : t) : t :=
  round (mantissa x * mantissa y) (exponent x + exponent y).

(** [Math.floor(x)], as an integer. *)
Definition floor (x : t) : Z :=
  if 0 <=? exponent x then mantissa x * 2 ^ exponent x
  else mantissa x / 2 ^ (- exponent x).

(** The values [Math.random()] can return: at least 0 and below 1. *)
Definition unit_interval (x : t) : Prop :=
  0 <= mantissa x < 2 ^ 53
  ∧ emin <= exponent x < 0
  ∧ mantissa x < 2 ^ (- exponent x).

End Binary64.

(** ** Data model *)

(** [MessageType] is imported from [./messages]; the source uses these four
    members. *)
Inductive MessageType := DM | MENTION | REPLY | GENERIC.

Global Instance MessageType_eq_dec : EqDecision MessageType.
Proof. solve_decision. Defined.

Record User := mkUser {
  user_id : string;
  username : string;
  bot : bool
}.

Record Channel := mkChannel {
  channel_id : string;
  (** [None] when the channel object has no [name] property. *)
  channel_name : option string
}.

Record MessageReference := mkReference {
  (** [reference.messageId] is optional in the platform's type. *)
  messageId : option string
}.

(** The fields of a platform message that the source reads. *)
Record Message := mkMessage {
  author : User;
  content : string;
  channel : Channel;
  (** [None] is [message.guild === null]. *)
  guild : option string;
  (** The value of [message.mentions.has(client.user || '')]. *)
  mentions_has_client : bool;
  reference : option MessageReference
}.

Record BatchedMessage := mkBatched {
  message : Message;
  messageType : MessageType;
  timestamp : Z
}.

(** The constants read from the environment at start-up. *)
Record Config := mkConfig {
  RESPOND_TO_DMS : bool;
  RESPOND_TO_MENTIONS : bool;
  RESPOND_TO_BOTS : bool;
  RESPOND_TO_GENERIC : bool;
  CHANNEL_ID : option string;
  RESPONSE_CHANNEL_ID : option string;
  ENABLE_TIMER : bool;
  TIMER_INTERVAL_MINUTES : Z;
  MESSAGE_BATCH_ENABLED : bool;
  MESSAGE_BATCH_SIZE : Z;
  MESSAGE_BATCH_TIMEOUT_MS : Z
}.

Definition MESSAGE_REPLY_TRUNCATE_LENGTH : nat := 100.

(** The result of an awaited promise. *)
Inductive Outcome (A : Type) :=
| Resolved (a : A)
| Rejected (error : string).
Arguments Resolved {A} a.
Arguments Rejected {A} error.

(** Calls that leave the process. *)
Inductive Effect :=
| SendMessage (m : Message) (t : MessageType) (canRespond : bool)
              (batchedMessage : option string)
| Reply (m : Message) (text : string)
| SendTyping (c : Channel)
| FetchMessage (c : Channel) (id : string)
| ConsoleError (what : string).

(** ** [truncateMessage] and [shouldRespondInChannel] *)

Definition truncateMessage (message : string) (maxLength : nat) : string :=
  if (maxLength <? String.length message)%nat
  then Js.substring0 (maxLength - 3) message +:+ "..."
  else message.

Definition shouldRespondInChannel (cfg : Config) (channelId : string) : bool :=
  if negb (Js.truthy (RESPONSE_CHANNEL_ID cfg)) then true
  else bool_decide (Some channelId = RESPONSE_CHANNEL_ID cfg).

(** ** The batching engine *)

(** Where a started drain is suspended. *)
Inductive Stage :=
| AwaitSendMessage
| AwaitReply.

(** The variables a suspended [drainMessageBatch] still uses. *)
Record Suspended := mkSuspended {
  d_channelId : string;
  d_lastMessage : Message;
  d_canRespond : bool;
  d_stage : Stage
}.

Record State := mkState {
  channelMessageBuffers : gmap string (list BatchedMessage);
  (** channel id to timeout handle *)
  channelBatchTimers : gmap string nat;
  (** the runtime's armed timeouts: handle to (due time, channel whose
      drain the callback runs) *)
  armed : gmap nat (Z * string);
  (** next handle [setTimeout] returns *)
  nextHandle : nat;
  (** drains started and not yet finished *)
  suspended : list Suspended
}.

Definition initial : State :=
  mkState ∅ ∅ ∅ 0 [].

Definition set_buffers (f : gmap string (list BatchedMessage) →
                            gmap string (list BatchedMessage)) (s : State) :=
  mkState (f (channelMessageBuffers s)) (channelBatchTimers s) (armed s)
          (nextHandle s) (suspended s).

Definition set_timers (f : gmap string nat → gmap string nat) (s : State) :=
  mkState (channelMessageBuffers s) (f (channelBatchTimers s)) (armed s)
          (nextHandle s) (suspended s).

Definition set_suspended (f : list Suspended → list Suspended) (s : State) :=
  mkState (channelMessageBuffers s) (channelBatchTimers s) (armed s)
          (nextHandle s) (f (suspended s)).

(** [clearTimeout(h)]. *)
Definition clearTimeout (h : nat) (s : State) : State :=
  mkState (channelMessageBuffers s) (channelBatchTimers s)
          (delete h (armed s)) (nextHandle s) (suspended s).

(** The largest delay Node's timers keep, 2^31 - 1 ms. *)
Definition TIMEOUT_MAX : Z := 2147483647.

(** The delay the runtime uses for a requested [delay]: a delay below 1 or
    above [TIMEOUT_MAX] becomes 1. *)
Definition timeout_delay (delay : Z) : Z :=
  if (1 <=? delay) && (delay <=? TIMEOUT_MAX) then delay else 1.

(** [setTimeout(() => drainMessageBatch(channelId), delay)] at time [now]:
    the new handle and the state with the timeout armed. *)
Definition setTimeout (now delay : Z) (channelId : string) (s : State)
  : nat * State :=
  (nextHandle s,
   mkState (channelMessageBuffers s) (channelBatchTimers s)
           (<[nextHandle s := (now + timeout_delay delay, channelId)]>
              (armed s))
           (S (nextHandle s)) (suspended s)).

(** The label-dependent provenance prefix of one batch line. *)
Definition batch_prefix (bm : BatchedMessage) : string :=
  let username := username (author (message bm)) in
  let userId := user_id (author (message bm)) in
  match messageType bm with
  | MENTION => "[" +:+ username +:+ " (id=" +:+ userId +:+ ") mentioned you]"
  | REPLY => "[" +:+ username +:+ " (id=" +:+ userId +:+ ") replied to you]"
  | DM => "[" +:+ username +:+ " (id=" +:+ userId +:+ ") sent you a DM]"
  | GENERIC => "[" +:+ username +:+ " (id=" +:+ userId +:+ ")]"
  end.

Definition batch_line (idx : nat) (bm : BatchedMessage) : string :=
  Js.string_of_nat (idx + 1) +:+ ". " +:+ batch_prefix bm +:+ " "
    +:+ content (message bm).

Definition batchedContent (buffer : list BatchedMessage) : string :=
  Js.join Js.nl (imap batch_line buffer).

Definition channelName (lastMessage : Message) (channelId : string) : string :=
  match channel_name (channel lastMessage) with
  | Some name =>
      if Js.truthy (Some name) then "#" +:+ name
      else "channel " +:+ channelId
  | None => "channel " +:+ channelId
  end.

Definition batchMessage (buffer : list BatchedMessage) (lastMessage : Message)
    (channelId : string) : string :=
  "[Batch of " +:+ Js.string_of_nat (length buffer) +:+ " messages from "
    +:+ channelName lastMessage channelId +:+ "]" +:+ Js.nl
    +:+ batchedContent buffer.

(** [drainMessageBatch] up to its first [await]: the timer is cleared, and
    for a non-empty buffer the backend call is issued and the drain is
    suspended on it.  [last buffer = None] is [buffer.length === 0]. *)
Definition drainMessageBatch (cfg : Config) (channelId : string) (s : State)
  : State * list Effect :=
  let buffer := channelMessageBuffers s !! channelId in
  let timer := channelBatchTimers s !! channelId in
  let s :=
    match timer with
    | Some h => set_timers (delete channelId) (clearTimeout h s)
    | None => s
    end in
  match buffer with
  | None => (s, [])
  | Some buffer =>
      match last buffer with
      | None => (s, [])
      | Some lastBatched =>
          let lastMessage := message lastBatched in
          let canRespond := shouldRespondInChannel cfg channelId in
          let payload := batchMessage buffer lastMessage channelId in
          (set_suspended
             (λ l, l ++ [mkSuspended channelId lastMessage canRespond
                                      AwaitSendMessage]) s,
           [SendMessage lastMessage (messageType lastBatched) canRespond
                        (Some payload)])
      end
  end.

(** The statement after the [try]/[catch] of [drainMessageBatch]; drain [k]
    is finished. *)
Definition drain_finish (k : nat) (d : Suspended) (s : State) : State :=
  set_suspended (delete k) (set_buffers (delete (d_channelId d)) s).

(** The backend call of suspended drain [k] settles. *)
Definition drain_sendMessage_settled (k : nat) (o : Outcome string) (s : State)
  : State * list Effect :=
  match suspended s !! k with
  | Some d =>
      match d_stage d, o with
      | AwaitSendMessage, Resolved msg =>
          if Js.nonempty msg && d_canRespond d
          then (set_suspended
                  (<[k := mkSuspended (d_channelId d) (d_lastMessage d)
                                      (d_canRespond d) AwaitReply]>) s,
                [Reply (d_lastMessage d) msg])
          else (drain_finish k d s, [])
      | AwaitSendMessage, Rejected _ =>
          (drain_finish k d s, [ConsoleError "Error processing batch:"])
      | AwaitReply, _ => (s, [])
      end
  | None => (s, [])
  end.

(** The [lastMessage.reply(msg)] of suspended drain [k] settles. *)
Definition drain_reply_settled (k : nat) (o : Outcome unit) (s : State)
  : State * list Effect :=
  match suspended s !! k with
  | Some d =>
      match d_stage d, o with
      | AwaitReply, Resolved _ => (drain_finish k d s, [])
      | AwaitReply, Rejected _ =>
          (drain_finish k d s, [ConsoleError "Error processing batch:"])
      | AwaitSendMessage, _ => (s, [])
      end
  | None => (s, [])
  end.

(** [addMessageToBatch] at time [now] (the value of [Date.now()]). *)
Definition addMessageToBatch (cfg : Config) (now : Z) (m : Message)
    (t : MessageType) (s : State) : State * list Effect :=
  let channelId := channel_id (channel m) in
  let s :=
    match channelMessageBuffers s !! channelId with
    | Some _ => s
    | None => set_buffers (<[channelId := []]>) s
    end in
  let buffer := default [] (channelMessageBuffers s !! channelId)
                  ++ [mkBatched m t now] in
  let s := set_buffers (<[channelId := buffer]>) s in
  if MESSAGE_BATCH_SIZE cfg <=? Z.of_nat (length buffer) then
    drainMessageBatch cfg channelId s
  else
    let s :=
      match channelBatchTimers s !! channelId with
      | Some h => clearTimeout h s
      | None => s
      end in
    let '(timeout, s) :=
      setTimeout now (MESSAGE_BATCH_TIMEOUT_MS cfg) channelId s in
    (set_timers (<[channelId := timeout]>) s, []).

(** Scheduler events that touch the batching state. *)
Inductive Event :=
| Enqueue (now : Z) (m : Message) (t : MessageType)
| TimeoutFires (h : nat)
| SendMessageSettles (k : nat) (o : Outcome string)
| ReplySettles (k : nat) (o : Outcome unit).

Definition step (cfg : Config) (e : Event) (s : State) : State * list Effect :=
  match e with
  | Enqueue now m t => addMessageToBatch cfg now m t s
  | TimeoutFires h =>
      match armed s !! h with
      | Some (_, channelId) =>
          (* single-shot: the runtime disarms the timeout, then runs the
             callback *)
          drainMessageBatch cfg channelId
            (mkState (channelMessageBuffers s) (channelBatchTimers s)
                     (delete h (armed s)) (nextHandle s) (suspended s))
      | None => (s, [])
      end
  | SendMessageSettles k o => drain_sendMessage_settled k o s
  | ReplySettles k o => drain_reply_settled k o s
  end.

Fixpoint run (cfg : Config) (es : list Event) (s : State)
  : State * list Effect :=
  match es with
  | [] => (s, [])
  | e :: es =>
      let '(s1, out1) := step cfg e s in
      let '(s2, out2) := run cfg es s1 in
      (s2, out1 ++ out2)
  end.

(** ** Handlers

    A handler runs over the batching state, may issue effects, and either
    returns or rejects with an error. *)

Definition M (A : Type) : Type := State → Outcome A * State * list Effect.

Global Instance M_ret : MRet M := λ A a s, (Resolved a, s, []).

Global Instance M_bind : MBind M := λ A B f m s,
  match m s with
  | (Resolved a, s1, out1) =>
      let '(r, s2, out2) := f a s1 in (r, s2, out1 ++ out2)
  | (Rejected e, s1, out1) => (Rejected e, s1, out1)
  end.

(** [await] of an external call whose promise settles as [o]. *)
Definition await {A} (e : Effect) (o : Outcome A) : M A :=
  λ s, (o, s, [e]).

Definition console_error (what : string) : M unit :=
  λ s, (Resolved (), s, [ConsoleError what]).

(** [try { body } catch (error) { handler }]. *)
Definition try_catch (body : M unit) (handler : string → M unit) : M unit :=
  λ s,
    match body s with
    | (Resolved a, s1, out1) => (Resolved a, s1, out1)
    | (Rejected e, s1, out1) =>
        let '(r, s2, out2) := handler e s1 in (r, s2, out1 ++ out2)
    end.

(** A synchronous call into the batching engine. *)
Definition engine (f : State → State * list Effect) : M unit :=
  λ s, let '(s1, out) := f s in (Resolved (), s1, out).

(** A call to an [async] function whose promise is not awaited: the caller
    continues whatever becomes of the promise. *)
Definition detached (m : M unit) : M unit :=
  λ s, let '(_, s1, out) := m s in (Resolved (), s1, out).

(** What a handler run is given from outside. *)
Record World := mkWorld {
  (** [client.user] *)
  client_user : option User;
  (** [Date.now()] *)
  now : Z;
  sendTyping_result : Channel → Outcome unit;
  fetch_result : Channel → string → Outcome Message;
  sendMessage_result :
    Message → MessageType → bool → option string → Outcome string;
  reply_result : Message → string → Outcome unit
}.

(** [id === client.user?.id] *)
Definition is_client_user (w : World) (id : string) : bool :=
  match client_user w with
  | Some u => String.eqb id (user_id u)
  | None => false
  end.

Definition processAndSendMessage (cfg : Config) (w : World) (message : Message)
    (messageType : MessageType) : M unit :=
  if MESSAGE_BATCH_ENABLED cfg then
    engine (addMessageToBatch cfg (now w) message messageType)
  else
    try_catch
      (let canRespond :=
         shouldRespondInChannel cfg (channel_id (channel message)) in
       msg ← await (SendMessage message messageType canRespond None)
                   (sendMessage_result w message messageType canRespond None);
       if Js.nonempty msg && canRespond
       then await (Reply message msg) (reply_result w message msg)
       else mret ())
      (λ _, console_error "Error processing and sending message:").

(** Lines 309-325 of the handler: the pair ([msgContent], [messageType]). *)
Definition reply_lookup (w : World) (message : Message)
  : M (string * MessageType) :=
  let msgContent := content message in
  let messageType := MENTION in
  match reference message with
  | Some r =>
      match messageId r with
      | Some id =>
          if Js.truthy (Some id) then
            originalMessage ← await (FetchMessage (channel message) id)
                                    (fetch_result w (channel message) id);
            if is_client_user w (user_id (author originalMessage)) then
              mret ("[Replying to previous message: " +:+ Js.dquote
                      +:+ truncateMessage (content originalMessage)
                                          MESSAGE_REPLY_TRUNCATE_LENGTH
                      +:+ Js.dquote +:+ "] " +:+ msgContent,
                    REPLY)
            else
              mret (msgContent,
                    if mentions_has_client message then MENTION else GENERIC)
          else mret (msgContent, messageType)
      | None => mret (msgContent, messageType)
      end
  | None => mret (msgContent, messageType)
  end.

(** The [messageCreate] listener. *)
Definition messageCreate (cfg : Config) (w : World) (message : Message)
  : M unit :=
  if Js.truthy (CHANNEL_ID cfg)
     && negb (bool_decide (Some (channel_id (channel message)) = CHANNEL_ID cfg))
  then mret ()
  else if is_client_user w (user_id (author message)) then mret ()
  else if bot (author message) && negb (RESPOND_TO_BOTS cfg) then mret ()
  else if Js.startsWith "!" (content message) then mret ()
  else
    match guild message with
    | None =>
        if RESPOND_TO_DMS cfg
        then detached (processAndSendMessage cfg w message DM)
        else mret ()
    | Some _ =>
        if RESPOND_TO_MENTIONS cfg
           && (mentions_has_client message
               || bool_decide (is_Some (reference message)))
        then
          let canRespond :=
            shouldRespondInChannel cfg (channel_id (channel message)) in
          _ ← (if canRespond
               then await (SendTyping (channel message))
                          (sendTyping_result w (channel message))
               else mret ());
          '(msgContent, messageType) ← reply_lookup w message;
          if MESSAGE_BATCH_ENABLED cfg then
            engine (addMessageToBatch cfg (now w) message messageType)
          else
            msg ← await (SendMessage message messageType canRespond None)
                        (sendMessage_result w message messageType canRespond
                                            None);
            if Js.nonempty msg && canRespond
            then await (Reply message msg) (reply_result w message msg)
            else mret ()
        else if RESPOND_TO_GENERIC cfg
        then detached (processAndSendMessage cfg w message GENERIC)
        else mret ()
    end.

(** ** The delay of [startRandomEventTimer]

    [random] is the value of [Math.random()]; every operation is the
    binary64 one. *)

Definition randomMinutes (cfg : Config) (random : Binary64.t) : Binary64.t :=
  let minMinutes := Binary64.of_Z 1 in
  Binary64.add minMinutes
    (Binary64.of_Z
       (Binary64.floor
          (Binary64.mul random
             (Binary64.sub (Binary64.of_Z (TIMER_INTERVAL_MINUTES cfg))
                           minMinutes)))).

(** The [delay] handed to [setTimeout], in milliseconds (it is a whole
    number, read off with [floor]); [None] when the timer feature is
    disabled and nothing is scheduled. *)
Definition startRandomEventTimer_delay (cfg : Config) (random : Binary64.t)
  : option Z :=
  if negb (ENABLE_TIMER cfg) then None
  else Some (Binary64.floor
               (Binary64.mul
                  (Binary64.mul (randomMinutes cfg random) (Binary64.of_Z 60))
                  (Binary64.of_Z 1000))).

(** ** Notions used in the statements *)

(** The current buffer of a channel, empty when the map has no entry. *)
Definition buffer_of (s : State) (c : string) : list BatchedMessage :=
  default [] (channelMessageBuffers s !! c).

(** The state after the push of [addMessageToBatch]. *)
Definition pushed (now : Z) (m : Message) (t : MessageType) (s : State)
  : State :=
  set_buffers (<[channel_id (channel m) :=
                   buffer_of s (channel_id (channel m))
                     ++ [mkBatched m t now]]>) s.

(** The armed table once the pending timeout of [c], if any, is cleared. *)
Definition cleared (c : string) (s : State) : gmap nat (Z * string) :=
  match channelBatchTimers s !! c with
  | Some h => delete h (armed s)
  | None => armed s
  end.

(** Every armed timeout is the one its channel has on record. *)
Definition armed_registered (s : State) : Prop :=
  ∀ h due c, armed s !! h = Some (due, c) → channelBatchTimers s !! c = Some h.

(** The timeout on record for [c] is armed, and for [c]. *)
Definition registered_armed_at (s : State) (c : string) : Prop :=
  ∀ h, channelBatchTimers s !! c = Some h → ∃ due, armed s !! h = Some (due, c).

Definition handles_fresh (s : State) : Prop :=
  ∀ h, is_Some (armed s !! h) → (h < nextHandle s)%nat.

(** Agreement of [channelBatchTimers] with the runtime's armed timeouts; in
    particular at most one timeout is armed per channel. *)
Record timers_wf (s : State) : Prop := {
  wf_armed : armed_registered s;
  wf_pending : ∀ c, registered_armed_at s c;
  wf_fresh : handles_fresh s
}.

(** A channel with a timer on record has a non-empty buffer. *)
Definition timer_has_buffer (s : State) : Prop :=
  ∀ c h, channelBatchTimers s !! c = Some h →
         ∃ buffer, channelMessageBuffers s !! c = Some buffer ∧ buffer ≠ [].

Definition enqueues (es : list (Z * Message * MessageType)) : list Event :=
  map (λ e, Enqueue e.1.1 e.1.2 e.2) es.

Definition batched (es : list (Z * Message * MessageType))
  : list BatchedMessage :=
  map (λ e, mkBatched e.1.2 e.2 e.1.1) es.

(** The consolidated-payload argument of each backend call. *)
Definition payloads (out : list Effect) : list (option string) :=
  omap (λ e, match e with
             | SendMessage _ _ _ p => Some p
             | _ => None
             end) out.

(** The same configuration with the batching flag set to [b]. *)
Definition with_batching (b : bool) (cfg : Config) : Config :=
  mkConfig (RESPOND_TO_DMS cfg) (RESPOND_TO_MENTIONS cfg) (RESPOND_TO_BOTS cfg)
           (RESPOND_TO_GENERIC cfg) (CHANNEL_ID cfg) (RESPONSE_CHANNEL_ID cfg)
           (ENABLE_TIMER cfg) (TIMER_INTERVAL_MINUTES cfg) b
           (MESSAGE_BATCH_SIZE cfg) (MESSAGE_BATCH_TIMEOUT_MS cfg).

(** The message an event replies to: its reference names a message and the
    platform returns it. *)
Definition replied_to (w : World) (m : Message) : option Message :=
  r ← reference m;
  id ← messageId r;
  if Js.truthy (Some id) then
    match fetch_result w (channel m) id with
    | Resolved original => Some original
    | Rejected _ => None
    end
  else None.

(** The label by the specification's priority list: no guild gives [DM]; a
    reply to the agent gives [REPLY]; a mention of the agent, or a reply to a
    different author, gives [MENTION]; anything else [GENERIC]. *)
Definition label_by_priority_list (w : World) (m : Message) : MessageType :=
  match guild m with
  | None => DM
  | Some _ =>
      match replied_to w m with
      | Some original =>
          if is_client_user w (user_id (author original)) then REPLY
          else MENTION
      | None => if mentions_has_client m then MENTION else GENERIC
      end
  end.

(** The label by the amended rule: a reply to a different author is [MENTION]
    only when it also mentions the agent and [GENERIC] otherwise; a
    reference that names no message counts as a mention. *)
Definition label_amended (w : World) (m : Message) : MessageType :=
  match guild m with
  | None => DM
  | Some _ =>
      match replied_to w m with
      | Some original =>
          if is_client_user w (user_id (author original)) then REPLY
          else if mentions_has_client m then MENTION else GENERIC
      | None =>
          if mentions_has_client m || bool_decide (is_Some (reference m))
          then MENTION else GENERIC
      end
  end.

(** The words a batch line puts after the author, by label. *)
Definition provenance (t : MessageType) : string :=
  match t with
  | MENTION => " mentioned you"
  | REPLY => " replied to you"
  | DM => " sent you a DM"
  | GENERIC => EmptyString
  end.

(** How a batch header shows the channel [channelId] of [ch]: by its name
    after a hash sign, or by its id when it has no name or an empty one. *)
Definition shown_as (ch : Channel) (channelId : string) (shown : string)
  : Prop :=
  match channel_name ch with
  | Some name =>
      if String.eqb name EmptyString then shown = "channel " +:+ channelId
      else shown = "#" +:+ name
  | None => shown = "channel " +:+ channelId
  end.

(** [payload] is the text of a batch of the items [buffer] of channel
    [channelId], the last of them being [lastMessage]: a header with the
    number of items and the channel, then one numbered line per item, in the
    order of [buffer], joined by line feeds.  Numbers are written in
    decimal. *)
Definition renders (buffer : list BatchedMessage) (lastMessage : Message)
    (channelId : string) (payload : string) : Prop :=
  ∃ (shown : string) (lines : list string),
    shown_as (channel lastMessage) channelId shown
    ∧ payload
      = "[Batch of " +:+ NilZero.string_of_uint (Nat.to_uint (length buffer))
          +:+ " messages from " +:+ shown +:+ "]"
          +:+ String "010" (String.concat (String "010" EmptyString) lines)
    ∧ length lines = length buffer
    ∧ ∀ i bm, buffer !! i = Some bm →
        lines !! i
        = Some (NilZero.string_of_uint (Nat.to_uint (i + 1)) +:+ ". "
                  +:+ ("[" +:+ username (author (message bm)) +:+ " (id="
                         +:+ user_id (author (message bm)) +:+ ")"
                         +:+ provenance (messageType bm) +:+ "]")
                  +:+ " " +:+ content (message bm)).

(** The backend calls among the effects, in order. *)
Definition calls (out : list Effect)
  : list (Message * MessageType * bool * option string) :=
  omap (λ e, match e with
             | SendMessage m t canRespond p => Some (m, t, canRespond, p)
             | _ => None
             end) out.

(** What it is for a handler run from [s] with result [r] to have dispatched
    [m] under label [t] and under no other.  On the batched path the one
    item [m] labelled [t] is appended to the channel's buffer, and the
    backend is called only if that fills the buffer, once, with the batch
    under the label [t].  On the immediate path the batching state is
    untouched and the backend is called exactly once, with [m] and [t]. *)
Definition dispatched_only_as (cfg : Config) (w : World) (m : Message)
    (t : MessageType) (s : State) (r : Outcome unit * State * list Effect)
  : Prop :=
  let c := channel_id (channel m) in
  let canRespond := shouldRespondInChannel cfg c in
  if MESSAGE_BATCH_ENABLED cfg then
    let buffer := buffer_of s c ++ [mkBatched m t (now w)] in
    channelMessageBuffers r.1.2 !! c = Some buffer
    ∧ if MESSAGE_BATCH_SIZE cfg <=? Z.of_nat (length buffer)
      then ∃ payload, calls r.2 = [(m, t, canRespond, Some payload)]
                      ∧ renders buffer m c payload
      else calls r.2 = []
  else
    r.1.2 = s ∧ calls r.2 = [(m, t, canRespond, None)].

(** What it is for a handler run from [s] with result [r] to have dispatched
    [m] under label [t]: on the batched path the item is appended to the
    channel's buffer, on the immediate path the backend is called with it. *)
Definition dispatched_as (cfg : Config) (w : World) (m : Message)
    (t : MessageType) (s : State) (r : Outcome unit * State * list Effect)
  : Prop :=
  if MESSAGE_BATCH_ENABLED cfg then
    channelMessageBuffers r.1.2 !! channel_id (channel m)
    = Some (buffer_of s (channel_id (channel m)) ++ [mkBatched m t (now w)])
  else
    SendMessage m t (shouldRespondInChannel cfg (channel_id (channel m))) None
      ∈ r.2.

(** ** Sample data *)

Definition ex_alice : User := mkUser "1" "alice" false.
Definition ex_bob : User := mkUser "2" "bob" false.
Definition ex_agent : User := mkUser "99" "agent" true.
Definition ex_channel : Channel := mkChannel "c" (Some "general").

(** All toggles on, no channel restriction, batches of ten, 30 s timeout. *)
Definition ex_cfg : Config :=
  mkConfig true true false true None None true 15 true 10 30000.

(** The same with batches of two. *)
Definition ex_cfg2 : Config :=
  mkConfig true true false true None None true 15 true 2 30000.

(** The same with a maximum timer interval of one minute. *)
Definition ex_cfg_interval1 : Config :=
  mkConfig true true false true None None true 1 true 10 30000.

(** The same with a maximum timer interval of 2^53 + 4 minutes. *)
Definition ex_cfg_interval_huge : Config :=
  mkConfig true true false true None None true 9007199254740996 true 10 30000.

(** The same with a batch timeout of 3000000000 ms, above [TIMEOUT_MAX]. *)
Definition ex_cfg_long_timeout : Config :=
  mkConfig true true false true None None true 15 true 10 3000000000.

(** The draw 1/2. *)
Definition ex_half : Binary64.t := Binary64.mk 1 (-1).

(** The largest draw, 1 - 2^-53. *)
Definition ex_almost_one : Binary64.t :=
  Binary64.mk 9007199254740991 (-53).

Definition ex_hello : Message :=
  mkMessage ex_alice "hello" ex_channel (Some "g") false None.
Definition ex_again : Message :=
  mkMessage ex_alice "again" ex_channel (Some "g") false None.
Definition ex_mention : Message :=
  mkMessage ex_alice "hey agent" ex_channel (Some "g") true None.
Definition ex_dm : Message :=
  mkMessage ex_alice "hey agent" (mkChannel "d" None) None false None.
Definition ex_command : Message :=
  mkMessage ex_alice "!ping" ex_channel (Some "g") true None.

(** A reply to message [m0] that does not mention the agent. *)
Definition ex_reply : Message :=
  mkMessage ex_alice "thanks" ex_channel (Some "g") false
            (Some (mkReference (Some "m0"))).

Definition ex_m0_by_agent : Message :=
  mkMessage ex_agent "hello" ex_channel (Some "g") false None.
Definition ex_m0_by_bob : Message :=
  mkMessage ex_bob "hello" ex_channel (Some "g") false None.

(** A world in which the referenced message is [m0], the backend call
    settles as [backend] and a platform send as [send]. *)
Definition ex_world (m0 : Message) (backend : Outcome string)
    (send : Outcome unit) : World :=
  mkWorld (Some ex_agent) 7 (λ _, Resolved ()) (λ _ _, Resolved m0)
          (λ _ _ _ _, backend) (λ _ _, send).

(** One message buffered on the initial state. *)
Definition ex_one_buffered : State :=
  (run ex_cfg [Enqueue 0 ex_hello GENERIC] initial).1.

(** ** The firing of the random event timer

    The callback [startRandomEventTimer] hands to [setTimeout], cut at its
    [await]s like the handlers.  [FIRING_PROBABILITY] is a parameter: it is
    read from the environment like the fields of [Config]. *)

(** What [client.channels.fetch] returned: the channel's id and whether the
    object has a [send] property. *)
Record FetchedChannel := mkFetched {
  fetched_id : string;
  has_send : bool
}.

(** Calls of the timer process that leave it. *)
Inductive TimerEffect :=
| ScheduleFiring (delay : Z)
| FetchChannel (id : string)
| SendTimerMessage (channel : option FetchedChannel)
| ChannelSend (channel : FetchedChannel) (text : string)
| ScheduleRestart (delay : Z)
| TimerConsoleError (what : string).

(** What one firing is given from outside. *)
Record TimerWorld := mkTimerWorld {
  (** the value of [Math.random()] compared with [FIRING_PROBABILITY] *)
  trial : Q;
  channels_fetch_result : string → Outcome (option FetchedChannel);
  sendTimerMessage_result : option FetchedChannel → Outcome string;
  channel_send_result : FetchedChannel → string → Outcome unit
}.

(** [startRandomEventTimer] itself: nothing when the feature is disabled,
    else one [setTimeout] of the callback. *)
Definition startRandomEventTimer (cfg : Config) (random : Binary64.t)
  : list TimerEffect :=
  match startRandomEventTimer_delay cfg random with
  | Some delay => [ScheduleFiring delay]
  | None => []
  end.

(** Lines 219-231: the value of [channel] after the guarded fetch. *)
Definition timer_channel (cfg : Config) (tw : TimerWorld)
  : option FetchedChannel * list TimerEffect :=
  match CHANNEL_ID cfg with
  | Some id =>
      if Js.truthy (Some id) then
        match channels_fetch_result tw id with
        | Resolved (Some fetchedChannel) =>
            if has_send fetchedChannel
            then (Some fetchedChannel, [FetchChannel id])
            else (None, [FetchChannel id])
        | Resolved None => (None, [FetchChannel id])
        | Rejected _ =>
            (None, [FetchChannel id;
                    TimerConsoleError "Error fetching channel:"])
        end
      else (None, [])
  | None => (None, [])
  end.

(** The callback of the timer: the result of its promise and what it
    issued. *)
Definition timerFired (cfg : Config) (FIRING_PROBABILITY : Q)
    (tw : TimerWorld) : Outcome unit * list TimerEffect :=
  if negb (Qle_bool FIRING_PROBABILITY (trial tw)) then
    let '(channel, fetched) := timer_channel cfg tw in
    match sendTimerMessage_result tw channel with
    | Resolved msg =>
        let sent :=
          match channel with
          | Some target =>
              if Js.nonempty msg then
                match channel_send_result tw target msg with
                | Resolved _ => [ChannelSend target msg]
                | Rejected _ =>
                    [ChannelSend target msg;
                     TimerConsoleError "Error sending timer message:"]
                end
              else []
          | None => []
          end in
        (Resolved (),
         fetched ++ [SendTimerMessage channel] ++ sent ++ [ScheduleRestart 1000])
    | Rejected error =>
        (Rejected error, fetched ++ [SendTimerMessage channel])
    end
  else (Resolved (), [ScheduleRestart 1000]).

(** ** Further notions used in the statements *)

(** The channel a scheduler event is about. *)
Definition event_channel (s : State) (e : Event) : option string :=
  match e with
  | Enqueue _ m _ => Some (channel_id (channel m))
  | TimeoutFires h => snd <$> armed s !! h
  | SendMessageSettles k _ | ReplySettles k _ =>
      d_channelId <$> suspended s !! k
  end.

(** A drain of channel [c] is suspended. *)
Definition drain_pending (s : State) (c : string) : Prop :=
  ∃ k d, suspended s !! k = Some d ∧ d_channelId d = c.

(** Every buffer in the map is non-empty and has a timer on record or a
    drain in flight. *)
Definition buffers_scheduled (s : State) : Prop :=
  ∀ c buffer, channelMessageBuffers s !! c = Some buffer →
    buffer ≠ [] ∧ (is_Some (channelBatchTimers s !! c) ∨ drain_pending s c).

(** The items of [es] addressed to channel [c]. *)
Definition for_channel (c : string) (es : list (Z * Message * MessageType))
  : list (Z * Message * MessageType) :=
  filter (λ e, channel_id (channel e.1.2) = c) es.

(** Neither a platform reply nor a typing indicator. *)
Definition silent (e : Effect) : Prop :=
  match e with
  | Reply _ _ | SendTyping _ => False
  | _ => True
  end.

(** What a drain suspended as [d] issues after its backend call settles as
    [o] and, if it sends a reply, the send settles as [r]. *)
Definition drain_tail (d : Suspended) (o : Outcome string) (r : Outcome unit)
  : list Effect :=
  match o with
  | Resolved msg =>
      if Js.nonempty msg && d_canRespond d then
        Reply (d_lastMessage d) msg
        :: match r with
           | Resolved _ => []
           | Rejected _ => [ConsoleError "Error processing batch:"]
           end
      else []
  | Rejected _ => [ConsoleError "Error processing batch:"]
  end.

(** ** Further sample data *)

(** Listening on channel [c] only. *)
Definition ex_cfg_listen : Config :=
  mkConfig true true false true (Some "c") None true 15 false 10 30000.

(** Replies allowed in channel [r] only, batching disabled. *)
Definition ex_cfg_observe : Config :=
  mkConfig true true false true None (Some "r") true 15 false 10 30000.

(** A size limit of zero. *)
Definition ex_cfg_size0 : Config :=
  mkConfig true true false true None None true 15 true 0 30000.

(** Mention handling off, batching disabled. *)
Definition ex_cfg_no_mentions : Config :=
  mkConfig true false false true None None true 15 false 10 30000.

(** Every response toggle off. *)
Definition ex_cfg_quiet : Config :=
  mkConfig false false false false None None true 15 false 10 30000.

Definition ex_message_in_d : Message :=
  mkMessage ex_alice "hello" (mkChannel "d" (Some "random")) (Some "g") false
            None.

Definition ex_fetched : FetchedChannel := mkFetched "c" true.

(** A firing with trial draw [draw], in which the channel is found, the
    backend settles as [backend] and the send succeeds. *)
Definition ex_timer_world (draw : Q) (backend : Outcome string) : TimerWorld :=
  mkTimerWorld draw (λ _, Resolved (Some ex_fetched)) (λ _, backend)
               (λ _ _, Resolved ()).

(** * Properties *)

(** ** Strings *)

(** [String.length] of a concatenation. *)
Lemma length_append (s1 s2 : string) :
  String.length (s1 +:+ s2) = (String.length s1 + String.length s2)%nat.
Proof. induction s1 as [|a s1 IH]; simpl; [done|by rewrite IH]. Qed.

(** A prefix of [n] characters has length [n] when the string is long enough. *)
Lemma length_substring0 (n : nat) (s : string) :
  (n ≤ String.length s)%nat → String.length (Js.substring0 n s) = n.
Proof.
  unfold Js.substring0. revert s.
  induction n as [|n IH]; intros s H; destruct s as [|a s]; simpl in *;
    try done; try lia.
  rewrite IH; [done|lia].
Qed.

(** A text of at most 100 characters is quoted unchanged. *)
Lemma truncateMessage_short (message : string) :
  (String.length message ≤ MESSAGE_REPLY_TRUNCATE_LENGTH)%nat →
  truncateMessage message MESSAGE_REPLY_TRUNCATE_LENGTH = message.
Proof.
  intros H. unfold truncateMessage.
  destruct (Nat.ltb_spec MESSAGE_REPLY_TRUNCATE_LENGTH (String.length message));
    [lia|done].
Qed.

(** A longer text becomes its first 97 characters followed by three dots,
    100 characters in all. *)
Lemma truncateMessage_long (message : string) :
  (MESSAGE_REPLY_TRUNCATE_LENGTH < String.length message)%nat →
  truncateMessage message MESSAGE_REPLY_TRUNCATE_LENGTH
    = Js.substring0 97 message +:+ "..."
  ∧ String.length (truncateMessage message MESSAGE_REPLY_TRUNCATE_LENGTH)
    = 100%nat.
Proof.
  intros H. unfold truncateMessage.
  destruct (Nat.ltb_spec MESSAGE_REPLY_TRUNCATE_LENGTH (String.length message));
    [|lia].
  change (MESSAGE_REPLY_TRUNCATE_LENGTH - 3)%nat with 97%nat.
  split; [done|]. rewrite length_append, length_substring0; [done|].
  unfold MESSAGE_REPLY_TRUNCATE_LENGTH in *. lia.
Qed.

(** ** Lists *)

(** Removing the last cell of a list. *)
Lemma list_delete_last {A} (l : list A) (x : A) :
  delete (length l) (l ++ [x]) = l.
Proof.
  rewrite <- (app_nil_r l) at 3. apply (delete_middle l [] x).
Qed.

(** Overwriting the last cell of a list. *)
Lemma list_insert_last {A} (l : list A) (x y : A) :
  <[length l := y]> (l ++ [x]) = l ++ [y].
Proof. by rewrite insert_app_r_alt, Nat.sub_diag. Qed.

(** Reading the last cell of a list. *)
Lemma list_lookup_last {A} (l : list A) (x : A) :
  (l ++ [x]) !! length l = Some x.
Proof. by apply list_lookup_middle. Qed.

(** ** Equations of the batching engine *)

(** The state once [drainMessageBatch] reaches its first [await] or returns:
    only the timer tables change. *)
Lemma drainMessageBatch_state cfg c s :
  let s1 := (drainMessageBatch cfg c s).1 in
  channelMessageBuffers s1 = channelMessageBuffers s
  ∧ channelBatchTimers s1 = delete c (channelBatchTimers s)
  ∧ armed s1 = match channelBatchTimers s !! c with
               | Some h => delete h (armed s)
               | None => armed s
               end
  ∧ nextHandle s1 = nextHandle s.
Proof.
  unfold drainMessageBatch.
  destruct (channelBatchTimers s !! c) as [h|] eqn:Ht;
    destruct (channelMessageBuffers s !! c) as [b|]; try destruct (last b);
    simpl; rewrite ?(delete_id _ _ Ht); done.
Qed.

(** The backend call a drain of a non-empty buffer issues. *)
Lemma drainMessageBatch_out cfg c s b lastB :
  channelMessageBuffers s !! c = Some b → last b = Some lastB →
  (drainMessageBatch cfg c s).2 =
    [SendMessage (message lastB) (messageType lastB)
       (shouldRespondInChannel cfg c)
       (Some (batchMessage b (message lastB) c))].
Proof.
  intros Hb Hl. unfold drainMessageBatch. rewrite Hb, Hl. done.
Qed.

(** [drainMessageBatch] on a non-empty buffer, in full. *)
Lemma drainMessageBatch_nonempty cfg c s b lastB :
  channelMessageBuffers s !! c = Some b → last b = Some lastB →
  drainMessageBatch cfg c s =
    (set_suspended
       (λ l, l ++ [mkSuspended c (message lastB)
                               (shouldRespondInChannel cfg c) AwaitSendMessage])
       match channelBatchTimers s !! c with
       | Some h => set_timers (delete c) (clearTimeout h s)
       | None => s
       end,
     [SendMessage (message lastB) (messageType lastB)
        (shouldRespondInChannel cfg c)
        (Some (batchMessage b (message lastB) c))]).
Proof. intros Hb Hl. unfold drainMessageBatch. by rewrite Hb, Hl. Qed.

(** At or above the size limit [addMessageToBatch] is the push followed by
    the drain. *)
Lemma addMessageToBatch_full cfg now m t s :
  MESSAGE_BATCH_SIZE cfg
    <= Z.of_nat (length (buffer_of s (channel_id (channel m))) + 1) →
  addMessageToBatch cfg now m t s =
    drainMessageBatch cfg (channel_id (channel m)) (pushed now m t s).
Proof.
  intros H. unfold addMessageToBatch, pushed, buffer_of.
  set (c := channel_id (channel m)).
  destruct (channelMessageBuffers s !! c) as [b|] eqn:Hb; simpl.
  - rewrite Hb. simpl. rewrite length_app. simpl.
    unfold buffer_of in H. fold c in H. rewrite Hb in H. simpl in H.
    destruct (_ <=? _) eqn:E; [done|apply Z.leb_gt in E; lia].
  - rewrite lookup_insert_eq. simpl.
    unfold buffer_of in H. fold c in H. rewrite Hb in H. simpl in H.
    destruct (_ <=? _) eqn:E; [|apply Z.leb_gt in E; lia].
    unfold set_buffers. simpl. by rewrite insert_insert_eq.
Qed.

(** Below the size limit [addMessageToBatch] pushes, clears the channel's
    timeout and arms a new one. *)
Lemma addMessageToBatch_below cfg now m t s :
  Z.of_nat (length (buffer_of s (channel_id (channel m))) + 1)
    < MESSAGE_BATCH_SIZE cfg →
  let c := channel_id (channel m) in
  ∃ s', addMessageToBatch cfg now m t s = (s', [])
    ∧ channelMessageBuffers s' =
        <[c := buffer_of s c ++ [mkBatched m t now]]> (channelMessageBuffers s)
    ∧ channelBatchTimers s' = <[c := nextHandle s]> (channelBatchTimers s)
    ∧ armed s'
      = <[nextHandle s
          := (now + timeout_delay (MESSAGE_BATCH_TIMEOUT_MS cfg), c)]>
          (cleared c s)
    ∧ nextHandle s' = S (nextHandle s)
    ∧ suspended s' = suspended s.
Proof.
  intros H c. unfold addMessageToBatch, cleared, buffer_of. fold c.
  unfold buffer_of in H. fold c in H.
  destruct (channelMessageBuffers s !! c) as [b|] eqn:Hb; simpl in *.
  - rewrite Hb. simpl. rewrite length_app. simpl.
    destruct (_ <=? _) eqn:E; [apply Z.leb_le in E; lia|].
    destruct (channelBatchTimers s !! c); simpl; eexists; split; try done;
      simpl; by rewrite ?insert_insert_eq.
  - rewrite lookup_insert_eq. simpl.
    destruct (_ <=? _) eqn:E; [apply Z.leb_le in E; lia|].
    destruct (channelBatchTimers s !! c); simpl; eexists; split; try done;
      simpl; by rewrite ?insert_insert_eq.
Qed.

(** In both cases the channel's buffer ends with the new item. *)
Lemma addMessageToBatch_buffer cfg now m t s :
  channelMessageBuffers (addMessageToBatch cfg now m t s).1
    !! channel_id (channel m)
  = Some (buffer_of s (channel_id (channel m)) ++ [mkBatched m t now]).
Proof.
  destruct (Z.le_gt_cases (MESSAGE_BATCH_SIZE cfg)
              (Z.of_nat (length (buffer_of s (channel_id (channel m))) + 1)))
    as [Hfull|Hbelow].
  - rewrite addMessageToBatch_full by done.
    destruct (drainMessageBatch_state cfg (channel_id (channel m))
                (pushed now m t s)) as (Hb & _).
    rewrite Hb. apply lookup_insert_eq.
  - destruct (addMessageToBatch_below cfg now m t s Hbelow)
      as (s' & Heq & Hb & _).
    rewrite Heq. simpl. rewrite Hb. apply lookup_insert_eq.
Qed.

(** Reading back a buffer that was just stored. *)
Lemma buffer_of_insert c b (s s' : State) :
  channelMessageBuffers s' = <[c := b]> (channelMessageBuffers s) →
  buffer_of s' c = b.
Proof. intros H. unfold buffer_of. by rewrite H, lookup_insert_eq. Qed.

(** Running a concatenation of event lists. *)
Lemma run_app cfg es1 es2 s :
  run cfg (es1 ++ es2) s =
    let '(s1, out1) := run cfg es1 s in
    let '(s2, out2) := run cfg es2 s1 in
    (s2, out1 ++ out2).
Proof.
  revert s. induction es1 as [|e es1 IH]; intros s; simpl.
  - by destruct (run cfg es2 s).
  - destruct (step cfg e s) as [s1 o1]. rewrite IH.
    destruct (run cfg es1 s1) as [s2 o2].
    destruct (run cfg es2 s2) as [s3 o3]. by rewrite app_assoc.
Qed.

(** ** The timer tables stay well formed *)

(** The initial state is well formed. *)
Lemma timers_wf_initial : timers_wf initial.
Proof.
  split.
  - intros h due c. simpl. by rewrite lookup_empty.
  - intros c h. simpl. by rewrite lookup_empty.
  - intros h [x H]. simpl in H. by rewrite lookup_empty in H.
Qed.

(** [drainMessageBatch] restores well-formedness even when the timeout of
    its own channel has just been disarmed by the runtime. *)
Lemma drainMessageBatch_wf_except cfg c s :
  armed_registered s →
  (∀ c', c' ≠ c → registered_armed_at s c') →
  (∀ h due c', channelBatchTimers s !! c = Some h →
               armed s !! h = Some (due, c') → c' = c) →
  handles_fresh s →
  timers_wf (drainMessageBatch cfg c s).1.
Proof.
  intros Ha Hp Hc Hf.
  destruct (drainMessageBatch_state cfg c s) as (_ & Ht & Har & Hn).
  assert (Hsub : ∀ h x, armed (drainMessageBatch cfg c s).1 !! h = Some x →
                        armed s !! h = Some x
                        ∧ channelBatchTimers s !! c ≠ Some h).
  { intros h x. rewrite Har.
    destruct (channelBatchTimers s !! c) as [h0|] eqn:E; [|done].
    intros [Hne Hx]%lookup_delete_Some. split; [done|congruence]. }
  split.
  - intros h due c' H. apply Hsub in H as [H Hne].
    pose proof (Ha _ _ _ H) as H'. rewrite Ht.
    destruct (decide (c = c')) as [->|]; [congruence|].
    by rewrite lookup_delete_ne.
  - intros c' h. rewrite Ht. intros [Hne H]%lookup_delete_Some.
    destruct (Hp c' (not_eq_sym Hne) h H) as [due Hd].
    exists due. rewrite Har.
    destruct (channelBatchTimers s !! c) as [h0|] eqn:E; [|done].
    rewrite lookup_delete_ne; [done|].
    intros ->. apply Hne. symmetry. eapply Hc; eauto.
  - intros h [x Hx]. rewrite Hn. apply Hf. apply Hsub in Hx as [Hx _]. by eexists.
Qed.

(** [drainMessageBatch] keeps the timer tables well formed. *)
Lemma drainMessageBatch_wf cfg c s :
  timers_wf s → timers_wf (drainMessageBatch cfg c s).1.
Proof.
  intros [Ha Hp Hf]. apply drainMessageBatch_wf_except; [done| | |done].
  - intros c' _. apply Hp.
  - intros h due c' H1 H2. destruct (Hp c h H1) as [due' H3]. congruence.
Qed.

(** The push does not touch the timer tables. *)
Lemma pushed_wf now m t s : timers_wf s → timers_wf (pushed now m t s).
Proof. intros [Ha Hp Hf]. by split. Qed.

(** One enqueue below the size limit: the channel's only armed timeout is
    the new one, due a full timeout after this enqueue; the previous one is
    disarmed. *)
Lemma enqueue_below_timer cfg now m t s :
  timers_wf s →
  Z.of_nat (length (buffer_of s (channel_id (channel m))) + 1)
    < MESSAGE_BATCH_SIZE cfg →
  let c := channel_id (channel m) in
  let s' := (addMessageToBatch cfg now m t s).1 in
  channelMessageBuffers s' =
    <[c := buffer_of s c ++ [mkBatched m t now]]> (channelMessageBuffers s)
  ∧ channelBatchTimers s' !! c = Some (nextHandle s)
  ∧ armed s' !! nextHandle s
    = Some (now + timeout_delay (MESSAGE_BATCH_TIMEOUT_MS cfg), c)
  ∧ (∀ h due, armed s' !! h = Some (due, c) → h = nextHandle s)
  ∧ (∀ h0, channelBatchTimers s !! c = Some h0 → armed s' !! h0 = None)
  ∧ suspended s' = suspended s
  ∧ timers_wf s'.
Proof.
  intros [Ha Hp Hf] Hlt c s'. subst s'.
  destruct (addMessageToBatch_below cfg now m t s Hlt)
    as (s2 & -> & Hb & Ht & Har & Hn & Hsu).
  fold c in Hb, Ht, Har. simpl.
  set (n := nextHandle s) in *.
  assert (Hcl : ∀ h x, cleared c s !! h = Some x →
                       armed s !! h = Some x
                       ∧ channelBatchTimers s !! c ≠ Some h).
  { intros h x. unfold cleared.
    destruct (channelBatchTimers s !! c) as [h0|] eqn:E; [|done].
    intros [Hne Hx]%lookup_delete_Some. split; [done|congruence]. }
  assert (Hfresh : cleared c s !! n = None).
  { destruct (cleared c s !! n) as [x|] eqn:E; [|done].
    apply Hcl in E as [E _].
    assert (n < n)%nat by (apply Hf; by eexists). lia. }
  assert (Huniq : ∀ h due, armed s2 !! h = Some (due, c) → h = n).
  { intros h due. rewrite Har. destruct (decide (n = h)) as [->|Hne]; [done|].
    rewrite lookup_insert_ne by done.
    intros [H Hno]%Hcl. by apply Ha in H. }
  split; [done|]. split; [by rewrite Ht, lookup_insert_eq|].
  split; [by rewrite Har, lookup_insert_eq|]. split; [done|].
  split.
  { intros h0 H0. rewrite Har.
    destruct (Hp c h0 H0) as [due Hd].
    assert (h0 < n)%nat by (apply Hf; by eexists).
    rewrite lookup_insert_ne by lia.
    unfold cleared. rewrite H0. apply lookup_delete_eq. }
  split; [done|]. split.
  - intros h due c'. destruct (decide (c' = c)) as [->|Hc].
    + intros H. rewrite (Huniq _ _ H), Ht. apply lookup_insert_eq.
    + rewrite Har, Ht. rewrite (lookup_insert_ne _ c c') by done.
      destruct (decide (n = h)) as [->|Hne].
      * rewrite lookup_insert_eq. intros [=]. congruence.
      * rewrite lookup_insert_ne by done. intros [H _]%Hcl. by apply Ha in H.
  - intros c' h. rewrite Ht, Har. destruct (decide (c = c')) as [->|Hc].
    + rewrite lookup_insert_eq. intros [= <-]. exists (now + timeout_delay (MESSAGE_BATCH_TIMEOUT_MS cfg)).
      apply lookup_insert_eq.
    + rewrite lookup_insert_ne by done. intros H.
      destruct (Hp c' h H) as [due Hd]. exists due.
      assert (h < n)%nat by (apply Hf; by eexists).
      rewrite lookup_insert_ne by lia.
      unfold cleared. destruct (channelBatchTimers s !! c) as [h0|] eqn:E; [|done].
      rewrite lookup_delete_ne; [done|].
      intros ->. destruct (Hp c h E) as [due' Hd']. congruence.
  - intros h. rewrite Har, Hn. intros [x Hx].
    destruct (decide (n = h)) as [->|Hne]; [lia|].
    rewrite lookup_insert_ne in Hx by done.
    apply Hcl in Hx as [Hx _].
    assert (h < n)%nat by (apply Hf; by eexists). lia.
Qed.

(** [addMessageToBatch] keeps the timer tables well formed. *)
Lemma addMessageToBatch_wf cfg now m t s :
  timers_wf s → timers_wf (addMessageToBatch cfg now m t s).1.
Proof.
  intros Hwf.
  destruct (Z.le_gt_cases (MESSAGE_BATCH_SIZE cfg)
              (Z.of_nat (length (buffer_of s (channel_id (channel m))) + 1)))
    as [Hfull|Hbelow].
  - rewrite addMessageToBatch_full by done.
    by apply drainMessageBatch_wf, pushed_wf.
  - by apply enqueue_below_timer.
Qed.

(** Resuming a drain after its backend call does not touch the timer
    tables. *)
Lemma drain_sendMessage_settled_timers k o s :
  let s' := (drain_sendMessage_settled k o s).1 in
  channelBatchTimers s' = channelBatchTimers s ∧ armed s' = armed s
  ∧ nextHandle s' = nextHandle s.
Proof.
  unfold drain_sendMessage_settled.
  destruct (suspended s !! k) as [d|]; [|done].
  destruct (d_stage d), o; try done.
  by destruct (Js.nonempty a && d_canRespond d).
Qed.

(** Resuming a drain after its platform send does not touch the timer
    tables. *)
Lemma drain_reply_settled_timers k o s :
  let s' := (drain_reply_settled k o s).1 in
  channelBatchTimers s' = channelBatchTimers s ∧ armed s' = armed s
  ∧ nextHandle s' = nextHandle s.
Proof.
  unfold drain_reply_settled.
  destruct (suspended s !! k) as [d|]; [|done].
  by destruct (d_stage d), o.
Qed.

(** Well-formedness only depends on the timer tables. *)
Lemma timers_wf_ext s s' :
  channelBatchTimers s' = channelBatchTimers s → armed s' = armed s →
  nextHandle s' = nextHandle s → timers_wf s → timers_wf s'.
Proof.
  intros Ht Ha Hn [H1 H2 H3].
  split; unfold armed_registered, registered_armed_at, handles_fresh;
    rewrite ?Ht, ?Ha, ?Hn; done.
Qed.

(** Every scheduler step keeps the timer tables well formed. *)
Lemma step_wf cfg e s : timers_wf s → timers_wf (step cfg e s).1.
Proof.
  intros Hwf. destruct e as [now m t|h|k o|k o]; simpl.
  - by apply addMessageToBatch_wf.
  - destruct (armed s !! h) as [[due c]|] eqn:Hh; [|done].
    destruct Hwf as [Ha Hp Hf].
    apply drainMessageBatch_wf_except.
    + intros h' due' c'. simpl. intros [_ H]%lookup_delete_Some. by apply Ha in H.
    + intros c' Hc h'. simpl. intros H.
      destruct (Hp c' h' H) as [due' Hd]. exists due'.
      rewrite lookup_delete_ne; [done|]. intros <-. congruence.
    + intros h' due' c'. simpl. intros H [_ Hd]%lookup_delete_Some.
      destruct (Hp c h' H) as [due2 Hd2]. congruence.
    + intros h' [x Hx]. simpl in *. apply lookup_delete_Some in Hx as [_ Hx].
      apply Hf. by eexists.
  - destruct (drain_sendMessage_settled_timers k o s) as (?&?&?).
    by eapply timers_wf_ext.
  - destruct (drain_reply_settled_timers k o s) as (?&?&?).
    by eapply timers_wf_ext.
Qed.

(** Every run keeps the timer tables well formed. *)
Lemma run_wf cfg es s : timers_wf s → timers_wf (run cfg es s).1.
Proof.
  revert s. induction es as [|e es IH]; intros s Hwf; simpl; [done|].
  pose proof (step_wf cfg e s Hwf) as H1.
  destruct (step cfg e s) as [s1 o1]. specialize (IH s1 H1).
  by destruct (run cfg es s1).
Qed.

(** Every reachable state is well formed: each channel has at most one
    armed timeout, and it is the one on record. *)
Lemma reachable_wf cfg es : timers_wf (run cfg es initial).1.
Proof. apply run_wf, timers_wf_initial. Qed.

(** A run of enqueues to one channel that stays below the size limit issues
    nothing and leaves the items buffered in arrival order. *)
Lemma run_enqueues_below cfg c es s :
  timers_wf s →
  Forall (λ e, channel_id (channel e.1.2) = c) es →
  Z.of_nat (length (buffer_of s c) + length es) < MESSAGE_BATCH_SIZE cfg →
  ∃ s', run cfg (enqueues es) s = (s', [])
    ∧ timers_wf s'
    ∧ (es ≠ [] → channelMessageBuffers s' !! c
                 = Some (buffer_of s c ++ batched es))
    ∧ buffer_of s' c = buffer_of s c ++ batched es
    ∧ suspended s' = suspended s.
Proof.
  revert s. induction es as [|[[now m] t] es IH]; intros s Hwf Hall Hlen.
  - exists s. simpl. by rewrite app_nil_r.
  - apply Forall_cons in Hall as [Hc Hall]. simpl in Hc. simpl in Hlen.
    assert (Hlt : Z.of_nat (length (buffer_of s (channel_id (channel m))) + 1)
                  < MESSAGE_BATCH_SIZE cfg) by (rewrite Hc; lia).
    destruct (enqueue_below_timer cfg now m t s Hwf Hlt)
      as (Hb & _ & _ & _ & _ & Hsu & Hwf1).
    destruct (addMessageToBatch_below cfg now m t s Hlt) as (s1 & Heq & _).
    rewrite Heq in Hb, Hsu, Hwf1. simpl in Hb, Hsu, Hwf1. rewrite Hc in Hb.
    pose proof (buffer_of_insert _ _ _ _ Hb) as Hb1.
    destruct (IH s1 Hwf1 Hall) as (s' & Hrun & Hwf' & Hbuf & Hbo & Hsu').
    { rewrite Hb1, length_app. simpl. lia. }
    exists s'. simpl. rewrite Heq, Hrun. split; [done|]. split; [done|].
    rewrite Hb1 in Hbuf, Hbo. rewrite <- !app_assoc in *. simpl in *.
    split; [|split; [done|congruence]].
    intros _. destruct es as [|e es]; [|by apply Hbuf].
    simpl in Hrun. injection Hrun as <-. by rewrite Hb, lookup_insert_eq.
Qed.

(** ** Handlers *)

(** The promise of [processAndSendMessage] never rejects: on the immediate
    path every failure is caught and logged. *)
Lemma processAndSendMessage_never_rejects cfg w m t s :
  ∃ s' out, processAndSendMessage cfg w m t s = (Resolved (), s', out).
Proof.
  unfold processAndSendMessage.
  destruct (MESSAGE_BATCH_ENABLED cfg).
  - unfold engine. destruct (addMessageToBatch cfg (now w) m t s). eauto.
  - unfold try_catch, mbind, M_bind, await, console_error.
    destruct (sendMessage_result w m t _ None) as [msg|e]; [|eauto].
    destruct (Js.nonempty msg && _); [|simpl; eauto].
    destruct (reply_result w m msg) as [[]|e]; eauto.
Qed.

(** [processAndSendMessage] dispatches its message under the label it is
    given. *)
Lemma processAndSendMessage_dispatches cfg w m t s :
  dispatched_as cfg w m t s (processAndSendMessage cfg w m t s).
Proof.
  unfold dispatched_as, processAndSendMessage.
  destruct (MESSAGE_BATCH_ENABLED cfg).
  - unfold engine.
    pose proof (addMessageToBatch_buffer cfg (now w) m t s) as H.
    by destruct (addMessageToBatch cfg (now w) m t s).
  - unfold try_catch, mbind, M_bind, await, console_error.
    destruct (sendMessage_result w m t _ None) as [msg|e]; [|simpl; set_solver].
    destruct (Js.nonempty msg && _); [|simpl; set_solver].
    destruct (reply_result w m msg) as [[]|e]; simpl; set_solver.
Qed.

(** Not awaiting a call does not change what it dispatched. *)
Lemma detached_dispatches cfg w m t s body :
  dispatched_as cfg w m t s (body s) →
  dispatched_as cfg w m t s (detached body s).
Proof.
  unfold dispatched_as, detached. by destruct (body s) as [[? ?] ?].
Qed.

(** ** Batch payloads and backend calls *)

(** The prefix of a batch line is the author in brackets followed by the
    provenance of the label. *)
Lemma batch_prefix_provenance bm :
  batch_prefix bm
  = "[" +:+ username (author (message bm)) +:+ " (id="
      +:+ user_id (author (message bm)) +:+ ")"
      +:+ provenance (messageType bm) +:+ "]".
Proof. unfold batch_prefix, provenance. by destruct (messageType bm). Qed.

(** [channelName] shows the channel as [shown_as] says. *)
Lemma channelName_shown m c : shown_as (channel m) c (channelName m c).
Proof.
  unfold shown_as, channelName, Js.truthy, Js.nonempty.
  destruct (channel_name (channel m)) as [name|]; [|done].
  by destruct (String.eqb name EmptyString).
Qed.

(** The payload of a drain renders its buffer. *)
Lemma batchMessage_renders buffer m c :
  renders buffer m c (batchMessage buffer m c).
Proof.
  exists (channelName m c), (imap batch_line buffer).
  split; [apply channelName_shown|]. split; [done|].
  split; [apply length_imap|].
  intros i bm H. rewrite list_lookup_imap, H. simpl.
  unfold batch_line. by rewrite batch_prefix_provenance.
Qed.

(** [renders] determines the payload. *)
Lemma renders_unique buffer m c p q :
  renders buffer m c p → renders buffer m c q → p = q.
Proof.
  intros (sp & lp & Hsp & -> & Hlp & Hp) (sq & lq & Hsq & -> & Hlq & Hq).
  assert (sp = sq) as ->.
  { unfold shown_as in *. destruct (channel_name (channel m)) as [name|];
      [destruct (String.eqb name EmptyString)|]; congruence. }
  assert (lp = lq) as ->; [|done].
  apply list_eq. intros i.
  destruct (buffer !! i) as [bm|] eqn:Hb.
  - by rewrite (Hp _ _ Hb), (Hq _ _ Hb).
  - apply lookup_ge_None in Hb.
    rewrite (proj2 (lookup_ge_None lp i)), (proj2 (lookup_ge_None lq i));
      [done|lia|lia].
Qed.

(** What a settled drain adds holds no backend call. *)
Lemma calls_drain_tail d o r : calls (drain_tail d o r) = [].
Proof.
  unfold drain_tail. destruct o as [msg|e]; [|done].
  destruct (Js.nonempty msg && d_canRespond d); [|done]. by destruct r.
Qed.

(** The backend calls of one enqueue: the batch, under the label of the new
    item, when the push fills the buffer, and none otherwise. *)
Lemma addMessageToBatch_calls cfg now m t s :
  let c := channel_id (channel m) in
  let buffer := buffer_of s c ++ [mkBatched m t now] in
  if MESSAGE_BATCH_SIZE cfg <=? Z.of_nat (length buffer)
  then ∃ payload,
         calls (addMessageToBatch cfg now m t s).2
         = [(m, t, shouldRespondInChannel cfg c, Some payload)]
         ∧ renders buffer m c payload
  else calls (addMessageToBatch cfg now m t s).2 = [].
Proof.
  intros c buffer. subst buffer. rewrite length_app. simpl.
  destruct (Z.leb_spec (MESSAGE_BATCH_SIZE cfg)
              (Z.of_nat (length (buffer_of s c) + 1))) as [Hfull|Hbelow].
  - rewrite addMessageToBatch_full by done. fold c.
    assert (Hb : channelMessageBuffers (pushed now m t s) !! c
                 = Some (buffer_of s c ++ [mkBatched m t now])).
    { unfold pushed. fold c. simpl. apply lookup_insert_eq. }
    rewrite (drainMessageBatch_nonempty _ _ _ _ _ Hb (last_snoc _ _)).
    eexists. split; [done|]. apply batchMessage_renders.
  - destruct (addMessageToBatch_below cfg now m t s Hbelow) as (s' & Heq & _).
    by rewrite Heq.
Qed.

(** [processAndSendMessage] dispatches its message under the label it is
    given and under no other. *)
Lemma processAndSendMessage_dispatches_only cfg w m t s :
  dispatched_only_as cfg w m t s (processAndSendMessage cfg w m t s).
Proof.
  unfold dispatched_only_as, processAndSendMessage.
  destruct (MESSAGE_BATCH_ENABLED cfg).
  - unfold engine.
    pose proof (addMessageToBatch_buffer cfg (now w) m t s) as H.
    pose proof (addMessageToBatch_calls cfg (now w) m t s) as Hc.
    by destruct (addMessageToBatch cfg (now w) m t s).
  - unfold try_catch, mbind, M_bind, await, console_error.
    destruct (sendMessage_result w m t _ None) as [msg|e]; [|done].
    destruct (Js.nonempty msg && _); [|done].
    by destruct (reply_result w m msg) as [[]|e].
Qed.

(** Not awaiting a call does not change what it dispatched. *)
Lemma detached_dispatches_only cfg w m t s body :
  dispatched_only_as cfg w m t s (body s) →
  dispatched_only_as cfg w m t s (detached body s).
Proof.
  unfold dispatched_only_as, detached. by destruct (body s) as [[? ?] ?].
Qed.

(** Dispatch under one label only is dispatch under that label. *)
Lemma dispatched_only_as_dispatched_as cfg w m t s r :
  dispatched_only_as cfg w m t s r → dispatched_as cfg w m t s r.
Proof.
  unfold dispatched_only_as, dispatched_as.
  destruct (MESSAGE_BATCH_ENABLED cfg); [by intros [? _]|].
  intros [_ H]. destruct r as [[o s'] out]. simpl in *.
  induction out as [|e out IH]; [done|].
  unfold calls in H. simpl in H.
  destruct e; simpl in H; try (right; by apply IH).
  injection H as -> -> -> -> _. left.
Qed.

(** Case analysis on the branches of a handler run, for
    [dispatched_only_as]. *)
Ltac handler_cases_only :=
  repeat (simpl;
    match goal with
    | |- context [if ?b then _ else _] => destruct b eqn:?
    | |- context [match sendMessage_result ?w ?m ?t ?c ?p with _ => _ end] =>
        destruct (sendMessage_result w m t c p) eqn:?
    | |- context [match reply_result ?w ?m ?p with _ => _ end] =>
        destruct (reply_result w m p) eqn:?
    | |- context [let '(_, _) := addMessageToBatch ?cfg ?n ?m ?t ?s in _] =>
        let H := fresh in let Hc := fresh in
        pose proof (addMessageToBatch_buffer cfg n m t s) as H;
        pose proof (addMessageToBatch_calls cfg n m t s) as Hc;
        destruct (addMessageToBatch cfg n m t s)
    end);
  simpl in *;
  repeat match goal with
         | E : ?b = _, H : (if ?b then _ else _) |- _ => rewrite E in H
         | E : ?b = _, H : ex _ |- _ => rewrite E in H
         end;
  first [done | split; [done|]; unfold calls in *; simpl; eauto].

(** ** Timeouts *)

(** The delay the runtime keeps, spelt out. *)
Lemma timeout_delay_spec delay :
  timeout_delay delay
  = if bool_decide (1 <= delay <= 2147483647) then delay else 1.
Proof.
  unfold timeout_delay, TIMEOUT_MAX.
  destruct (Z.leb_spec 1 delay), (Z.leb_spec delay 2147483647);
    case_bool_decide; simpl; lia.
Qed.

(** ** Binary64 arithmetic *)

(** A mantissa below 2^53 with an exponent in range is not rounded. *)
Lemma round_exact M E :
  Z.abs M < 2 ^ 53 → Binary64.emin <= E →
  Binary64.round M E = Binary64.mk M E.
Proof.
  intros HM HE. unfold Binary64.round.
  assert (Z.log2 (Z.abs M) <= 52).
  { destruct (Z.eq_dec (Z.abs M) 0) as [->|Hne]; [done|].
    assert (Z.log2 (Z.abs M) < 53); [|lia].
    apply Z.log2_lt_pow2; lia. }
  destruct (Z.ltb_spec 0 (Z.max (Z.log2 (Z.abs M) - 52) (Binary64.emin - E)));
    [lia|done].
Qed.

(** Rounding to nearest lies between the quotient and the value plus half
    a unit. *)
Lemma shift_rne_bounds M k :
  0 < k →
  M / 2 ^ k <= Binary64.shift_rne M k
  ∧ Binary64.shift_rne M k * 2 ^ k <= M + 2 ^ (k - 1).
Proof.
  intros Hk. unfold Binary64.shift_rne.
  assert (Ha2 : 2 ^ k = 2 * 2 ^ (k - 1)).
  { rewrite <- Z.pow_succ_r by lia. f_equal. lia. }
  assert (Hh : 0 < 2 ^ (k - 1)) by (apply Z.pow_pos_nonneg; lia).
  pose proof (Z.div_mod M (2 ^ k) ltac:(lia)) as Hdm.
  pose proof (Z.mod_pos_bound M (2 ^ k) ltac:(lia)) as Hm.
  set (q := M / 2 ^ k) in *. set (rest := M mod 2 ^ k) in *.
  destruct (Z.ltb_spec rest (2 ^ (k - 1))); [split; nia|].
  destruct (Z.ltb_spec (2 ^ (k - 1)) rest); [split; nia|].
  destruct (Z.even q); split; nia.
Qed.

(** The floor of a non-negative value is non-negative. *)
Lemma floor_nonneg x :
  0 <= Binary64.mantissa x → 0 <= Binary64.floor x.
Proof.
  intros H. unfold Binary64.floor.
  destruct (Z.leb_spec 0 (Binary64.exponent x)).
  - apply Z.mul_nonneg_nonneg; [done|]. by apply Z.pow_nonneg.
  - apply Z.div_pos; [done|]. apply Z.pow_pos_nonneg; lia.
Qed.

(** Rounding keeps a non-negative mantissa non-negative. *)
Lemma shift_rne_nonneg M k : 0 < k → 0 <= M → 0 <= Binary64.shift_rne M k.
Proof.
  intros Hk HM. destruct (shift_rne_bounds M k Hk) as [H _].
  assert (0 <= M / 2 ^ k); [|lia].
  apply Z.div_pos; [done|]. apply Z.pow_pos_nonneg; lia.
Qed.

(** The product of a number of [0, 1) and a whole number [n] below 2^53,
    rounded, has its floor in [0, n - 1]. *)
Lemma floor_mul_unit r n :
  Binary64.unit_interval r → 1 <= n < 2 ^ 53 →
  0 <= Binary64.floor (Binary64.mul r (Binary64.mk n 0)) <= n - 1.
Proof.
  intros (Hm & He & Hlt) Hn. destruct r as [m e]. simpl in *.
  unfold Binary64.mul. simpl. rewrite Z.add_0_r.
  unfold Binary64.round.
  set (M := m * n). assert (HM : 0 <= M) by (unfold M; nia).
  rewrite (Z.abs_eq M) by done.
  set (P := 2 ^ (- e)) in *.
  assert (HP : 0 < P) by (apply Z.pow_pos_nonneg; lia).
  assert (HMP : M < n * P) by (unfold M; nia).
  destruct (Z.ltb_spec 0 (Z.max (Z.log2 M - 52) (Binary64.emin - e))) as [Hk|Hk].
  - (* rounded *)
    assert (Hk1 : Z.max (Z.log2 M - 52) (Binary64.emin - e) = Z.log2 M - 52)
      by lia.
    assert (HM0 : 0 < M).
    { destruct (Z.eq_dec M 0) as [E|]; [|lia]. rewrite E in Hk. simpl in Hk. lia. }
    rewrite Hk1 in *. set (k := Z.log2 M - 52) in *.
    destruct (shift_rne_bounds M k Hk) as [_ Hup].
    pose proof (shift_rne_nonneg M k Hk HM) as Hlo.
    set (M' := Binary64.shift_rne M k) in *.
    destruct (Z.log2_spec M HM0) as [Hl _].
    (* 2^(k-1) * 2^53 = 2^(log2 M) <= M *)
    assert (Hhalf : 2 ^ (k - 1) * 2 ^ 53 <= M).
    { rewrite <- Z.pow_add_r by lia.
      replace (k - 1 + 53) with (Z.log2 M) by (unfold k; lia). done. }
    (* m * 2^53 <= (2^53 - 1) * P *)
    assert (Hr : m * 2 ^ 53 <= (2 ^ 53 - 1) * P).
    { destruct (Z.le_gt_cases (- e) 53) as [Hs|Hs].
      - assert (2 ^ 53 = P * 2 ^ (53 + e)) as ->.
        { unfold P. rewrite <- Z.pow_add_r by lia. f_equal. lia. }
        assert (0 < 2 ^ (53 + e)) by (apply Z.pow_pos_nonneg; lia).
        nia.
      - assert (P = 2 ^ 53 * 2 ^ (- e - 53)) as ->.
        { unfold P. rewrite <- Z.pow_add_r by lia. f_equal. lia. }
        assert (2 <= 2 ^ (- e - 53)).
        { change 2 with (2 ^ 1) at 1. apply Z.pow_le_mono_r; lia. }
        nia. }
    (* hence M' * 2^k < n * P *)
    assert (Hkey : M' * 2 ^ k < n * P).
    { assert (0 < 2 ^ k) by (apply Z.pow_pos_nonneg; lia).
      assert (0 < 2 ^ (k - 1)) by (apply Z.pow_pos_nonneg; lia).
      set (W := 2 ^ 53) in *. assert (0 < W) by done.
      assert (Ha1 : M' * 2 ^ k * W <= M * W + M) by nia.
      assert (Ha2 : M * W + M = n * (m * W) + n * m) by (unfold M; ring).
      assert (Ha3 : n * (m * W) + n * m <= n * ((W - 1) * P) + n * m) by nia.
      assert (Ha4 : m < P) by done.
      assert (Ha5 : n * ((W - 1) * P) + n * m < n * P * W) by nia.
      nia. }
    split; [by apply floor_nonneg|].
    unfold Binary64.floor. simpl.
    destruct (Z.leb_spec 0 (e + k)) as [Hek|Hek].
    + assert (2 ^ k = 2 ^ (e + k) * P) as Hsplit.
      { unfold P. rewrite <- Z.pow_add_r by lia. f_equal. lia. }
      assert (0 < 2 ^ (e + k)) by (apply Z.pow_pos_nonneg; lia).
      rewrite Hsplit in Hkey. nia.
    + assert (P = 2 ^ k * 2 ^ (- (e + k))) as Hsplit.
      { unfold P. rewrite <- Z.pow_add_r by lia. f_equal. lia. }
      assert (0 < 2 ^ k) by (apply Z.pow_pos_nonneg; lia).
      assert (0 < 2 ^ (- (e + k))) by (apply Z.pow_pos_nonneg; lia).
      assert (M' / 2 ^ (- (e + k)) < n); [|lia].
      apply Z.div_lt_upper_bound; [done|]. rewrite Hsplit in Hkey. nia.
  - (* exact *)
    split; [by apply floor_nonneg|].
    unfold Binary64.floor. simpl.
    destruct (Z.leb_spec 0 e); [lia|]. fold P.
    assert (M / P < n); [|lia].
    apply Z.div_lt_upper_bound; [done|]. lia.
Qed.

(** A whole number below 2^53 is a binary64 value. *)
Lemma of_Z_exact z : Z.abs z < 2 ^ 53 → Binary64.of_Z z = Binary64.mk z 0.
Proof. intros H. apply round_exact; [done|]. unfold Binary64.emin. lia. Qed.

(** Sums, differences and products of whole numbers are exact while the
    result stays below 2^53. *)
Lemma add_exact a b :
  Z.abs (a + b) < 2 ^ 53 →
  Binary64.add (Binary64.mk a 0) (Binary64.mk b 0) = Binary64.mk (a + b) 0.
Proof.
  intros H. unfold Binary64.add. simpl. rewrite !Z.mul_1_r.
  apply round_exact; [done|]. unfold Binary64.emin. lia.
Qed.

Lemma sub_exact a b :
  Z.abs (a - b) < 2 ^ 53 →
  Binary64.sub (Binary64.mk a 0) (Binary64.mk b 0) = Binary64.mk (a - b) 0.
Proof.
  intros H. unfold Binary64.sub, Binary64.opp. simpl.
  rewrite add_exact; [done|]. by replace (a + - b) with (a - b) by lia.
Qed.

Lemma mul_exact a b :
  Z.abs (a * b) < 2 ^ 53 →
  Binary64.mul (Binary64.mk a 0) (Binary64.mk b 0) = Binary64.mk (a * b) 0.
Proof.
  intros H. unfold Binary64.mul. simpl.
  apply round_exact; [done|]. unfold Binary64.emin. lia.
Qed.

(** The product of any binary64 value of [0, 1) and zero is zero. *)
Lemma floor_mul_zero r :
  Binary64.unit_interval r →
  Binary64.floor (Binary64.mul r (Binary64.mk 0 0)) = 0.
Proof.
  intros (_ & He & _). unfold Binary64.mul. simpl.
  rewrite Z.mul_0_r, Z.add_0_r, round_exact by (simpl; lia).
  unfold Binary64.floor. simpl.
  destruct (Z.leb_spec 0 (Binary64.exponent r)); [lia|done].
Qed.

(** For a draw in [0, 1) and a maximum of at least one minute that is a
    binary64 whole number, [randomMinutes] is a whole number of minutes, at
    least 1; it is below the maximum when that is at least 2, and 1 when the
    maximum is 1. *)
Lemma randomMinutes_bounds (cfg : Config) (random : Binary64.t) :
  Binary64.unit_interval random →
  1 <= TIMER_INTERVAL_MINUTES cfg < 2 ^ 53 →
  ∃ minutes, randomMinutes cfg random = Binary64.mk minutes 0
    ∧ 1 <= minutes
    ∧ (2 <= TIMER_INTERVAL_MINUTES cfg → minutes < TIMER_INTERVAL_MINUTES cfg)
    ∧ (TIMER_INTERVAL_MINUTES cfg = 1 → minutes = 1).
Proof.
  intros Hr HT. unfold randomMinutes.
  rewrite (of_Z_exact 1) by done.
  rewrite (of_Z_exact (TIMER_INTERVAL_MINUTES cfg)) by lia.
  rewrite sub_exact by lia.
  set (n := TIMER_INTERVAL_MINUTES cfg - 1).
  set (f := Binary64.floor (Binary64.mul random (Binary64.mk n 0))).
  assert (Hf : 0 <= f ∧ (2 <= TIMER_INTERVAL_MINUTES cfg → f <= n - 1)
               ∧ (TIMER_INTERVAL_MINUTES cfg = 1 → f = 0)).
  { destruct (Z.eq_dec n 0) as [Hn|Hn].
    - unfold f. rewrite Hn, floor_mul_zero by done. unfold n in Hn. lia.
    - pose proof (floor_mul_unit random n Hr ltac:(unfold n; lia)).
      fold f in H. unfold n in *. lia. }
  destruct Hf as (Hf0 & Hf1 & Hf2).
  assert (f < 2 ^ 53 - 1).
  { destruct (Z.eq_dec (TIMER_INTERVAL_MINUTES cfg) 1) as [E|E].
    - rewrite (Hf2 E). done.
    - specialize (Hf1 ltac:(lia)). unfold n in Hf1. lia. }
  rewrite (of_Z_exact f) by lia. rewrite add_exact by lia.
  exists (1 + f). split; [done|]. split; [lia|]. split.
  - intros H2. specialize (Hf1 H2). unfold n in Hf1. lia.
  - intros H1. rewrite (Hf2 H1). done.
Qed.

(** ** Drain *)

(** C1 fails on the code.  One message is buffered and the drain starts:
    the backend call has been issued and the channel's buffer entry is
    still in [channelMessageBuffers], not detached; the entry is deleted
    only by the last statement of [drainMessageBatch], after the call and
    the reply have settled. *)
Theorem drain_backend_called_with_buffer_attached :
  (drainMessageBatch ex_cfg "c" ex_one_buffered).2
    = [SendMessage ex_hello GENERIC true
         (Some ("[Batch of 1 messages from #general]" +:+ Js.nl
                  +:+ "1. [alice (id=1)] hello"))]
  ∧ channelMessageBuffers (drainMessageBatch ex_cfg "c" ex_one_buffered).1
      !! "c" = Some [mkBatched ex_hello GENERIC 0]
  ∧ channelMessageBuffers (drainMessageBatch ex_cfg "c" ex_one_buffered).1
      !! "c" ≠ None.
Proof. split; [|split]; vm_compute; done. Qed.

(** C2 fails on the code.  A message is buffered, its timeout fires and the
    drain issues the backend call; a second message arrives for the same
    channel before the call settles; the call settles and the reply is sent.
    Afterwards the channel has an armed timer on record and no buffer, the
    second message was never handed to the backend, and the timer will
    drain nothing when it fires. *)
Theorem enqueue_during_drain_strands_timer :
  let trace := [Enqueue 0 ex_hello GENERIC;
                TimeoutFires 0;
                Enqueue 5 ex_again GENERIC;
                SendMessageSettles 0 (Resolved "ok");
                ReplySettles 0 (Resolved ())] in
  let s := (run ex_cfg trace initial).1 in
  (run ex_cfg trace initial).2
    = [SendMessage ex_hello GENERIC true
         (Some ("[Batch of 1 messages from #general]" +:+ Js.nl
                  +:+ "1. [alice (id=1)] hello"));
       Reply ex_hello "ok"]
  ∧ channelBatchTimers s !! "c" = Some 1%nat
  ∧ armed s !! 1%nat = Some (30005, "c")
  ∧ channelMessageBuffers s !! "c" = None
  ∧ ¬ timer_has_buffer s
  ∧ step ex_cfg (TimeoutFires 1) s
    = (mkState ∅ ∅ ∅ 2 [], []).
Proof.
  intros trace s.
  assert (Ht : channelBatchTimers s !! "c" = Some 1%nat) by (vm_compute; done).
  assert (Hb : channelMessageBuffers s !! "c" = None) by (vm_compute; done).
  split; [vm_compute; done|]. split; [done|].
  split; [vm_compute; done|]. split; [done|]. split.
  - intros H. destruct (H "c" 1%nat Ht) as (b & Hb' & _). congruence.
  - vm_compute. done.
Qed.

(** Counterexample to C3 as stated.  For the same single event the batch
    drain passes a consolidated payload with a count header and an
    enumerated line, the immediate path passes none. *)
Lemma single_item_drain_payload_differs :
  let w := ex_world ex_m0_by_bob (Resolved EmptyString) (Resolved ()) in
  payloads (drainMessageBatch ex_cfg "c" ex_one_buffered).2
    = [Some ("[Batch of 1 messages from #general]" +:+ Js.nl
               +:+ "1. [alice (id=1)] hello")]
  ∧ payloads (processAndSendMessage (with_batching false ex_cfg) w
                ex_hello GENERIC initial).2
    = [None]
  ∧ payloads (drainMessageBatch ex_cfg "c" ex_one_buffered).2
    ≠ payloads (processAndSendMessage (with_batching false ex_cfg) w
                  ex_hello GENERIC initial).2.
Proof. intros w. split; [|split]; vm_compute; done. Qed.

(** C3, amended.  For a buffer holding exactly one item the batch drain
    calls the backend with the item's message, its label and the channel
    policy's decision, and with the consolidated payload made of the header
    [[Batch of 1 messages from <channel>]] and the line [1. <prefix> <text>];
    the immediate path calls it with the same message, label and decision
    and no consolidated payload. *)
Theorem single_item_drain_vs_immediate cfg w bm s :
  channelMessageBuffers s !! channel_id (channel (message bm)) = Some [bm] →
  let c := channel_id (channel (message bm)) in
  let canRespond := shouldRespondInChannel cfg c in
  (drainMessageBatch cfg c s).2
    = [SendMessage (message bm) (messageType bm) canRespond
         (Some ("[Batch of 1 messages from " +:+ channelName (message bm) c
                  +:+ "]" +:+ Js.nl +:+ "1. " +:+ batch_prefix bm +:+ " "
                  +:+ content (message bm)))]
  ∧ ∃ rest,
      (processAndSendMessage (with_batching false cfg) w (message bm)
         (messageType bm) s).2
      = SendMessage (message bm) (messageType bm) canRespond None :: rest.
Proof.
  intros Hb c canRespond. split.
  - by rewrite (drainMessageBatch_out cfg c s [bm] bm Hb eq_refl).
  - unfold processAndSendMessage, try_catch, mbind, M_bind, await,
      console_error. simpl. fold c.
    change (shouldRespondInChannel (with_batching false cfg) c)
      with canRespond.
    destruct (sendMessage_result w _ _ canRespond None) as [msg|e];
      [|simpl; eauto].
    destruct (Js.nonempty msg && canRespond); [|simpl; eauto].
    destruct (reply_result w (message bm) msg) as [[]|e]; simpl; eauto.
Qed.

(** C3, amended, at one buffered generic message. *)
Lemma single_item_drain_vs_immediate_witness :
  let w := ex_world ex_m0_by_bob (Resolved "hi") (Resolved ()) in
  let bm := mkBatched ex_hello GENERIC 0 in
  let c := channel_id (channel (message bm)) in
  let canRespond := shouldRespondInChannel ex_cfg c in
  (drainMessageBatch ex_cfg c ex_one_buffered).2
    = [SendMessage (message bm) (messageType bm) canRespond
         (Some ("[Batch of 1 messages from " +:+ channelName (message bm) c
                  +:+ "]" +:+ Js.nl +:+ "1. " +:+ batch_prefix bm +:+ " "
                  +:+ content (message bm)))]
  ∧ ∃ rest,
      (processAndSendMessage (with_batching false ex_cfg) w (message bm)
         (messageType bm) ex_one_buffered).2
      = SendMessage (message bm) (messageType bm) canRespond None :: rest.
Proof.
  intros w bm.
  apply (single_item_drain_vs_immediate ex_cfg w bm ex_one_buffered).
  vm_compute. reflexivity.
Defined.

(** ** Enqueue *)

(** C7.  The enqueue that brings the channel's buffer to the size limit
    issues the backend call before it returns; the payload of the call lists
    the buffered items followed by the new one, one numbered line each in
    arrival order under a header giving their number, which is the size
    limit; no timer is on record and none is armed for the channel
    afterwards. *)
Theorem size_limit_drains_immediately cfg now m t s :
  timers_wf s →
  Z.of_nat (length (buffer_of s (channel_id (channel m))
                      ++ [mkBatched m t now]))
    = MESSAGE_BATCH_SIZE cfg →
  let c := channel_id (channel m) in
  let buffer := buffer_of s c ++ [mkBatched m t now] in
  ∃ s' payload,
    addMessageToBatch cfg now m t s =
      (s', [SendMessage m t (shouldRespondInChannel cfg c) (Some payload)])
    ∧ renders buffer m c payload
    ∧ channelBatchTimers s' !! c = None
    ∧ (∀ h due, armed s' !! h ≠ Some (due, c))
    ∧ suspended s' =
        suspended s ++ [mkSuspended c m (shouldRespondInChannel cfg c)
                                    AwaitSendMessage].
Proof.
  intros [Ha Hp Hf] Hlen c buffer. subst buffer. fold c in Hlen.
  rewrite length_app in Hlen. simpl in Hlen.
  rewrite addMessageToBatch_full by (fold c; lia). fold c.
  assert (Hb : channelMessageBuffers (pushed now m t s) !! c
               = Some (buffer_of s c ++ [mkBatched m t now])).
  { unfold pushed. fold c. simpl. apply lookup_insert_eq. }
  rewrite (drainMessageBatch_nonempty _ _ _ _ _ Hb (last_snoc _ _)).
  eexists. eexists. split; [reflexivity|].
  split; [apply batchMessage_renders|]. simpl.
  destruct (channelBatchTimers s !! c) as [h0|] eqn:E; simpl.
  - split; [apply lookup_delete_eq|]. split; [|done].
    intros h due [Hne H]%lookup_delete_Some. apply Ha in H. congruence.
  - split; [done|]. split; [|done].
    intros h due H. apply Ha in H. congruence.
Qed.

(** C7 at a size limit of two and a second message. *)
Lemma size_limit_drains_immediately_witness :
  let s := (run ex_cfg2 [Enqueue 0 ex_hello GENERIC] initial).1 in
  let c := channel_id (channel ex_again) in
  let buffer := buffer_of s c ++ [mkBatched ex_again GENERIC 5] in
  ∃ s' payload,
    addMessageToBatch ex_cfg2 5 ex_again GENERIC s =
      (s', [SendMessage ex_again GENERIC (shouldRespondInChannel ex_cfg2 c)
                        (Some payload)])
    ∧ renders buffer ex_again c payload
    ∧ channelBatchTimers s' !! c = None
    ∧ (∀ h due, armed s' !! h ≠ Some (due, c))
    ∧ suspended s' =
        suspended s ++ [mkSuspended c ex_again
                          (shouldRespondInChannel ex_cfg2 c) AwaitSendMessage].
Proof.
  intros s.
  apply (size_limit_drains_immediately ex_cfg2 5 ex_again GENERIC s).
  - apply run_wf, timers_wf_initial.
  - vm_compute. reflexivity.
Defined.

(** Counterexample to C8 as stated.  With a configured timeout of
    3000000000 ms, which the runtime does not keep, the timeout armed by an
    enqueue at time 5 is due at time 6, not at 5 + 3000000000. *)
Lemma long_timeout_fires_after_one_ms :
  let s' := (run ex_cfg_long_timeout
               (enqueues [(0, ex_hello, GENERIC); (5, ex_again, GENERIC)])
               initial).1 in
  MESSAGE_BATCH_TIMEOUT_MS ex_cfg_long_timeout = 3000000000
  ∧ channelBatchTimers s' !! "c" = Some 1%nat
  ∧ armed s' !! 1%nat = Some (6, "c")
  ∧ armed s' !! 1%nat
    ≠ Some (5 + MESSAGE_BATCH_TIMEOUT_MS ex_cfg_long_timeout, "c").
Proof. intros s'. repeat split; vm_compute; done. Qed.

(** C8, amended.  After any sequence of enqueues to a channel that stays
    below the size limit, the channel's one armed timeout is due after the
    last enqueue by the configured timeout when that is between 1 and
    2147483647 ms, and by 1 ms for any other configured value; every
    earlier timeout is disarmed, and the firing drains the whole buffer in
    arrival order.  As the sequence is arbitrary this holds after each of
    its enqueues. *)
Theorem timeout_measured_from_last_enqueue cfg c s es now m t :
  timers_wf s →
  channel_id (channel m) = c →
  Forall (λ e, channel_id (channel e.1.2) = c) es →
  Z.of_nat (length (buffer_of s c) + length es + 1) < MESSAGE_BATCH_SIZE cfg →
  let timeout := MESSAGE_BATCH_TIMEOUT_MS cfg in
  let delay :=
    if bool_decide (1 <= timeout <= 2147483647) then timeout else 1 in
  ∃ s' h payload,
    run cfg (enqueues (es ++ [(now, m, t)])) s = (s', [])
    ∧ channelBatchTimers s' !! c = Some h
    ∧ armed s' !! h = Some (now + delay, c)
    ∧ (∀ h' due, armed s' !! h' = Some (due, c) → h' = h)
    ∧ (step cfg (TimeoutFires h) s').2 =
        [SendMessage m t (shouldRespondInChannel cfg c) (Some payload)]
    ∧ renders (buffer_of s c ++ batched (es ++ [(now, m, t)])) m c payload.
Proof.
  intros Hwf Hc Hall Hlen timeout delay. subst timeout delay.
  rewrite <- timeout_delay_spec.
  destruct (run_enqueues_below cfg c es s Hwf Hall) as (s1 & Hrun & Hwf1 & _ & Hb1 & _);
    [lia|].
  assert (Hlt : Z.of_nat (length (buffer_of s1 (channel_id (channel m))) + 1)
                < MESSAGE_BATCH_SIZE cfg).
  { rewrite Hc, Hb1, length_app. unfold batched. rewrite length_map. lia. }
  destruct (enqueue_below_timer cfg now m t s1 Hwf1 Hlt)
    as (Hb & Ht & Har & Huniq & _ & _ & _).
  destruct (addMessageToBatch_below cfg now m t s1 Hlt) as (s' & Heq & _).
  rewrite Heq, Hc in *. simpl in Hb, Ht, Har, Huniq.
  exists s', (nextHandle s1). eexists.
  unfold enqueues. rewrite map_app, run_app. fold (enqueues es). rewrite Hrun.
  simpl. rewrite Heq. split; [done|]. split; [done|]. split; [done|].
  split; [done|]. rewrite Har.
  unfold batched. rewrite map_app. simpl. fold (batched es).
  rewrite app_assoc, <- Hb1.
  split; [|apply batchMessage_renders].
  rewrite (drainMessageBatch_out cfg c _
             (buffer_of s1 c ++ [mkBatched m t now]) (mkBatched m t now));
    [done| |apply last_snoc].
  simpl. rewrite Hb. apply lookup_insert_eq.
Qed.

(** C8, amended, at two enqueues, at times 0 and 5, and a timeout of
    30000 ms. *)
Lemma timeout_measured_from_last_enqueue_witness :
  let timeout := MESSAGE_BATCH_TIMEOUT_MS ex_cfg in
  let delay :=
    if bool_decide (1 <= timeout <= 2147483647) then timeout else 1 in
  ∃ s' h payload,
    run ex_cfg (enqueues ([(0, ex_hello, GENERIC)]
                            ++ [(5, ex_again, GENERIC)])) initial
    = (s', [])
    ∧ channelBatchTimers s' !! "c" = Some h
    ∧ armed s' !! h = Some (5 + delay, "c")
    ∧ (∀ h' due, armed s' !! h' = Some (due, "c") → h' = h)
    ∧ (step ex_cfg (TimeoutFires h) s').2 =
        [SendMessage ex_again GENERIC (shouldRespondInChannel ex_cfg "c")
           (Some payload)]
    ∧ renders (buffer_of initial "c"
                 ++ batched ([(0, ex_hello, GENERIC)]
                               ++ [(5, ex_again, GENERIC)]))
              ex_again "c" payload.
Proof.
  apply (timeout_measured_from_last_enqueue ex_cfg "c" initial
           [(0, ex_hello, GENERIC)] 5 ex_again GENERIC).
  - apply timers_wf_initial.
  - reflexivity.
  - repeat constructor.
  - vm_compute. reflexivity.
Defined.

(** ** The message handler *)

(** C10.  An event written by the agent's own account, or whose text
    starts with [!], or written by a bot while [RESPOND_TO_BOTS] is off,
    makes the handler return with the batching state unchanged and no
    effect issued. *)
Lemma messageCreate_ignores (cfg : Config) (w : World) (m : Message) (s : State) :
  is_client_user w (user_id (author m)) = true
  ∨ Js.startsWith "!" (content m) = true
  ∨ (bot (author m) = true ∧ RESPOND_TO_BOTS cfg = false) →
  messageCreate cfg w m s = (Resolved (), s, []).
Proof.
  intros H. unfold messageCreate.
  destruct (Js.truthy (CHANNEL_ID cfg) && _); [done|].
  destruct (is_client_user w _) eqn:Hself; [done|].
  destruct (bot (author m) && negb (RESPOND_TO_BOTS cfg)) eqn:Hbot; [done|].
  destruct (Js.startsWith "!" (content m)) eqn:Hbang; [done|].
  destruct H as [H|[H|[H1 H2]]]; try discriminate.
  rewrite H1, H2 in Hbot. discriminate.
Qed.

(** C10 at a message starting with [!]. *)
Lemma messageCreate_ignores_witness :
  messageCreate ex_cfg (ex_world ex_m0_by_bob (Resolved "hi") (Resolved ()))
    ex_command ex_one_buffered
  = (Resolved (), ex_one_buffered, []).
Proof.
  apply (messageCreate_ignores ex_cfg _ ex_command ex_one_buffered).
  right. left. reflexivity.
Defined.

(** C4 fails on the code.  With batching disabled, a mention is answered by
    the backend and the platform send fails: the handler's promise rejects.
    The same failure on the path through [processAndSendMessage] (here a
    direct message) is caught and logged.  A failing backend call rejects the
    mention path as well. *)
Theorem mention_path_send_failure_rejects :
  let cfg := with_batching false ex_cfg in
  let w := ex_world ex_m0_by_bob (Resolved "hi") (Rejected "Missing Access") in
  messageCreate cfg w ex_mention initial
    = (Rejected "Missing Access", initial,
       [SendTyping ex_channel;
        SendMessage ex_mention MENTION true None;
        Reply ex_mention "hi"])
  ∧ messageCreate cfg w ex_dm initial
    = (Resolved (), initial,
       [SendMessage ex_dm DM true None;
        Reply ex_dm "hi";
        ConsoleError "Error processing and sending message:"])
  ∧ messageCreate cfg (ex_world ex_m0_by_bob (Rejected "timeout") (Resolved ()))
      ex_mention initial
    = (Rejected "timeout", initial,
       [SendTyping ex_channel; SendMessage ex_mention MENTION true None]).
Proof. intros cfg w. split; [|split]; vm_compute; done. Qed.

(** Counterexample to C5 as stated.  A reply to a message of another user
    that does not mention the agent is dispatched as [GENERIC], where the
    priority list gives [MENTION]. *)
Lemma reply_to_other_author_is_generic :
  let cfg := with_batching false ex_cfg in
  let w := ex_world ex_m0_by_bob (Resolved EmptyString) (Resolved ()) in
  messageCreate cfg w ex_reply initial
    = (Resolved (), initial,
       [SendTyping ex_channel;
        FetchMessage ex_channel "m0";
        SendMessage ex_reply GENERIC true None])
  ∧ label_by_priority_list w ex_reply = MENTION
  ∧ ¬ dispatched_as cfg w ex_reply (label_by_priority_list w ex_reply) initial
        (messageCreate cfg w ex_reply initial).
Proof.
  intros cfg w. split; [vm_compute; done|]. split; [vm_compute; done|].
  unfold dispatched_as. simpl.
  replace (messageCreate cfg w ex_reply initial).2
    with [SendTyping ex_channel; FetchMessage ex_channel "m0";
          SendMessage ex_reply GENERIC true None] by (vm_compute; done).
  replace (label_by_priority_list w ex_reply) with MENTION by (vm_compute; done).
  intros H. repeat (apply elem_of_cons in H as [H|H]; [discriminate|]).
  by apply elem_of_nil in H.
Qed.

(** C5, amended.  An event that passes the handler's filters, with the
    three response toggles on and the platform calls succeeding, is
    dispatched under [label_amended] and under no other label: [DM] without
    a guild; otherwise [REPLY] for a reply to the agent, for a reply to
    another author [MENTION] only if the event also mentions the agent and
    [GENERIC] if it does not, [MENTION] for a mention or a reference naming
    no message, and [GENERIC] for the rest. *)
Theorem classification_amended cfg w m s :
  (Js.truthy (CHANNEL_ID cfg)
   && negb (bool_decide (Some (channel_id (channel m)) = CHANNEL_ID cfg))
   = false) →
  is_client_user w (user_id (author m)) = false →
  bot (author m) && negb (RESPOND_TO_BOTS cfg) = false →
  Js.startsWith "!" (content m) = false →
  RESPOND_TO_DMS cfg = true →
  RESPOND_TO_MENTIONS cfg = true →
  RESPOND_TO_GENERIC cfg = true →
  sendTyping_result w (channel m) = Resolved () →
  (∀ r id, reference m = Some r → messageId r = Some id →
           ∃ original, fetch_result w (channel m) id = Resolved original) →
  dispatched_only_as cfg w m (label_amended w m) s (messageCreate cfg w m s).
Proof.
  intros H1 H2 H3 H4 Hdm Hmen Hgen Hty Hfetch.
  unfold messageCreate. rewrite H1, H2, H3, H4, Hdm, Hmen, Hgen.
  unfold label_amended, replied_to.
  destruct (guild m) as [g|].
  2:{ apply detached_dispatches_only, processAndSendMessage_dispatches_only. }
  destruct (reference m) as [[[id|]]|] eqn:Href; simpl.
  - rewrite orb_true_r. simpl.
    destruct (Hfetch _ _ eq_refl eq_refl) as [orig Ho].
    unfold reply_lookup, dispatched_only_as. rewrite Href. simpl.
    unfold mbind, M_bind, mret, M_ret, await, engine. rewrite Hty, Ho.
    handler_cases_only.
  - rewrite orb_true_r. simpl.
    unfold reply_lookup, dispatched_only_as. rewrite Href. simpl.
    unfold mbind, M_bind, mret, M_ret, await, engine. rewrite Hty.
    handler_cases_only.
  - rewrite orb_false_r.
    destruct (mentions_has_client m) eqn:Hm; simpl.
    + unfold reply_lookup, dispatched_only_as. rewrite Href. simpl.
      unfold mbind, M_bind, mret, M_ret, await, engine. rewrite Hty.
      handler_cases_only.
    + apply detached_dispatches_only, processAndSendMessage_dispatches_only.
Qed.

(** C5, amended, at a reply to another user's message. *)
Lemma classification_amended_witness :
  let cfg := with_batching false ex_cfg in
  let w := ex_world ex_m0_by_bob (Resolved EmptyString) (Resolved ()) in
  dispatched_only_as cfg w ex_reply (label_amended w ex_reply) initial
    (messageCreate cfg w ex_reply initial).
Proof.
  intros cfg w.
  apply (classification_amended cfg w ex_reply initial);
    try reflexivity.
  intros r id _ _. by exists ex_m0_by_bob.
Defined.

(** C6 fails on the code.  For a reply to the agent's message the label is
    [REPLY] and the handler computes the text prefixed with the quotation,
    but what it dispatches is the event with its raw text: the immediate path
    calls the backend with the unchanged message, and the batched path
    buffers it and later sends a payload without the quotation. *)
Theorem reply_quotation_not_dispatched :
  let w := ex_world ex_m0_by_agent (Resolved EmptyString) (Resolved ()) in
  (reply_lookup w ex_reply initial).1.1
    = Resolved ("[Replying to previous message: " +:+ Js.dquote +:+ "hello"
                  +:+ Js.dquote +:+ "] thanks", REPLY)
  ∧ content ex_reply = "thanks"
  ∧ (messageCreate (with_batching false ex_cfg) w ex_reply initial).2
    = [SendTyping ex_channel;
       FetchMessage ex_channel "m0";
       SendMessage ex_reply REPLY true None]
  ∧ channelMessageBuffers (messageCreate ex_cfg w ex_reply initial).1.2 !! "c"
    = Some [mkBatched ex_reply REPLY 7]
  ∧ (step ex_cfg (TimeoutFires 0)
       (messageCreate ex_cfg w ex_reply initial).1.2).2
    = [SendMessage ex_reply REPLY true
         (Some ("[Batch of 1 messages from #general]" +:+ Js.nl
                  +:+ "1. [alice (id=1) replied to you] thanks"))].
Proof. intros w. repeat split; vm_compute; done. Qed.

(** ** The random event timer *)

(** Counterexample to C9 as stated.  With a configured maximum of 1 minute
    the delay is one minute for the draw 1/2, which is not below the
    maximum; and with a configured maximum of 2^53 + 4 minutes and the
    largest draw, the rounded sum [randomMinutes] is the maximum itself. *)
Lemma timer_delay_not_below_maximum :
  Binary64.unit_interval ex_half
  ∧ startRandomEventTimer_delay ex_cfg_interval1 ex_half = Some 60000
  ∧ ¬ (∃ delay, startRandomEventTimer_delay ex_cfg_interval1 ex_half
                = Some delay
                ∧ 60000 <= delay
                ∧ delay < TIMER_INTERVAL_MINUTES ex_cfg_interval1 * 60000)
  ∧ Binary64.unit_interval ex_almost_one
  ∧ Binary64.floor (randomMinutes ex_cfg_interval_huge ex_almost_one)
    = TIMER_INTERVAL_MINUTES ex_cfg_interval_huge.
Proof.
  split; [by vm_compute|]. split; [by vm_compute|]. split.
  { intros (delay & H & _ & Hhi). vm_compute in H. injection H as <-.
    simpl in Hhi. lia. }
  split; [|by vm_compute].
  unfold Binary64.unit_interval, Binary64.emin. simpl. lia.
Qed.

(** C9, amended.  For a configured maximum of at least 1 minute whose length
    in milliseconds is below 2^53 and a draw in [0, 1), the delay is at
    least one minute; it is below the configured maximum when the maximum is
    at least 2 minutes, and exactly one minute when the maximum is
    1 minute. *)
Theorem timer_delay_bounds cfg random :
  ENABLE_TIMER cfg = true →
  Binary64.unit_interval random →
  1 <= TIMER_INTERVAL_MINUTES cfg →
  TIMER_INTERVAL_MINUTES cfg * 60000 < 2 ^ 53 →
  ∃ delay, startRandomEventTimer_delay cfg random = Some delay
    ∧ 60000 <= delay
    ∧ (2 <= TIMER_INTERVAL_MINUTES cfg →
       delay < TIMER_INTERVAL_MINUTES cfg * 60000)
    ∧ (TIMER_INTERVAL_MINUTES cfg = 1 → delay = 60000).
Proof.
  intros He Hr HT Hmax.
  destruct (randomMinutes_bounds cfg random Hr ltac:(lia))
    as (minutes & Heq & Hlo & Hhi & Hone).
  assert (Hm : minutes <= TIMER_INTERVAL_MINUTES cfg).
  { destruct (Z.eq_dec (TIMER_INTERVAL_MINUTES cfg) 1) as [E|E].
    - rewrite (Hone E). lia.
    - specialize (Hhi ltac:(lia)). lia. }
  unfold startRandomEventTimer_delay. rewrite He, Heq. simpl.
  rewrite (of_Z_exact 60), (of_Z_exact 1000) by done.
  rewrite mul_exact by lia. rewrite mul_exact by lia.
  unfold Binary64.floor. simpl. rewrite Z.mul_1_r.
  eexists. split; [done|]. split; [lia|]. split.
  - intros H2. specialize (Hhi H2). lia.
  - intros H2. rewrite (Hone H2). done.
Qed.

(** C9, amended, at a maximum of 15 minutes and a draw of 1/2. *)
Lemma timer_delay_bounds_witness :
  ∃ delay, startRandomEventTimer_delay ex_cfg ex_half = Some delay
    ∧ 60000 <= delay
    ∧ (2 <= TIMER_INTERVAL_MINUTES ex_cfg →
       delay < TIMER_INTERVAL_MINUTES ex_cfg * 60000)
    ∧ (TIMER_INTERVAL_MINUTES ex_cfg = 1 → delay = 60000).
Proof.
  apply (timer_delay_bounds ex_cfg ex_half).
  - reflexivity.
  - unfold Binary64.unit_interval, Binary64.emin. simpl. lia.
  - simpl. lia.
  - simpl. lia.
Defined.

(** * Further properties *)

(** ** Truncation and channel policy *)

(** The empty prefix. *)
Lemma substring0_zero (s : string) : Js.substring0 0 s = EmptyString.
Proof. by destruct s. Qed.

(** Taking the same prefix again, whatever was appended. *)
Lemma substring0_append (k : nat) (s t : string) :
  (k ≤ String.length s)%nat →
  Js.substring0 k (Js.substring0 k s +:+ t) = Js.substring0 k s.
Proof.
  unfold Js.substring0. revert s.
  induction k as [|k IH]; intros s H.
  - destruct s; simpl; by destruct t.
  - destruct s as [|a s]; simpl in *; [lia|].
    rewrite IH; [done|lia].
Qed.

(** X1.  The result of [truncateMessage] has at most [max maxLength 3]
    characters; for a limit below 3 a message longer than the limit becomes
    the three dots alone, which is longer than the limit. *)
Theorem truncateMessage_length (message : string) (maxLength : nat) :
  (String.length (truncateMessage message maxLength)
   ≤ Nat.max maxLength 3)%nat
  ∧ ((maxLength < 3)%nat → (maxLength < String.length message)%nat →
     truncateMessage message maxLength = "...").
Proof.
  unfold truncateMessage.
  destruct (Nat.ltb_spec maxLength (String.length message)) as [Hlt|Hge].
  - split.
    + rewrite length_append, length_substring0 by lia. simpl. lia.
    + intros H3 _. replace (maxLength - 3)%nat with 0%nat by lia.
      by rewrite substring0_zero.
  - split; [lia|]. intros _ H. lia.
Qed.

(** X2.  Truncating twice with the same limit is truncating once, for every
    limit. *)
Theorem truncateMessage_idempotent (message : string) (maxLength : nat) :
  truncateMessage (truncateMessage message maxLength) maxLength
  = truncateMessage message maxLength.
Proof.
  unfold truncateMessage.
  destruct (maxLength <? String.length message)%nat eqn:E.
  - apply Nat.ltb_lt in E.
    rewrite length_append, length_substring0 by lia. simpl.
    destruct (Nat.ltb_spec maxLength (maxLength - 3 + 3)) as [H|H]; [|done].
    replace (maxLength - 3)%nat with 0%nat by lia.
    by rewrite !substring0_zero.
  - by rewrite E.
Qed.

(** X3.  The first [maxLength - 3] characters of a message survive
    truncation unchanged. *)
Theorem truncateMessage_keeps_prefix (message : string) (maxLength : nat) :
  Js.substring0 (maxLength - 3) (truncateMessage message maxLength)
  = Js.substring0 (maxLength - 3) message.
Proof.
  unfold truncateMessage.
  destruct (Nat.ltb_spec maxLength (String.length message)) as [Hlt|Hge];
    [|done].
  apply substring0_append. lia.
Qed.

(** X4.  Replies are allowed in a channel exactly when every configured,
    non-empty response channel id is that channel's id: always when the
    setting is missing or the empty string, else only in that one channel. *)
Theorem shouldRespondInChannel_iff (cfg : Config) (channelId : string) :
  shouldRespondInChannel cfg channelId = true
  ↔ (∀ r, RESPONSE_CHANNEL_ID cfg = Some r → r ≠ EmptyString → channelId = r).
Proof.
  unfold shouldRespondInChannel, Js.truthy, Js.nonempty.
  destruct (RESPONSE_CHANNEL_ID cfg) as [r|]; simpl; [|done].
  destruct (String.eqb_spec r EmptyString) as [->|Hne]; simpl.
  - split; [|done]. by intros _ r [= <-] H.
  - rewrite bool_decide_eq_true. split.
    + by intros [= ->] r' [= <-] _.
    + intros H. by rewrite (H r eq_refl Hne).
Qed.

(** ** Drains and enqueues *)

(** Case analysis on a membership hypothesis over an explicit list. *)
Ltac mem_inv H :=
  cbn [fst snd] in H;
  repeat match type of H with
         | _ ∨ _ => destruct H as [H|H]
         | _ ∈ _ ++ _ => apply elem_of_app in H
         | _ ∈ _ :: _ => apply elem_of_cons in H
         | _ ∈ [] => apply elem_of_nil in H; destruct H
         | _ = _ => try discriminate H
         end.

(** Membership in an explicit list. *)
Ltac mem_here :=
  cbn [fst snd app];
  repeat (rewrite elem_of_app || rewrite elem_of_cons); auto 10.

(** X5.  A drain of a channel whose buffer is missing or empty issues
    nothing and suspends nothing; it only drops the channel's timer. *)
Theorem drain_nothing_buffered cfg c s :
  buffer_of s c = [] →
  drainMessageBatch cfg c s
  = (match channelBatchTimers s !! c with
     | Some h => set_timers (delete c) (clearTimeout h s)
     | None => s
     end, [])
  ∧ channelBatchTimers (drainMessageBatch cfg c s).1 !! c = None
  ∧ channelMessageBuffers (drainMessageBatch cfg c s).1
    = channelMessageBuffers s
  ∧ suspended (drainMessageBatch cfg c s).1 = suspended s.
Proof.
  unfold buffer_of, drainMessageBatch. intros H.
  destruct (channelMessageBuffers s !! c) as [b|]; simpl in H; subst; simpl;
    destruct (channelBatchTimers s !! c) eqn:E; simpl;
    rewrite ?lookup_delete_eq; done.
Qed.

(** drain_nothing_buffered at sample data. *)
Lemma drain_nothing_buffered_witness :
  drainMessageBatch ex_cfg "c" initial
  = (match channelBatchTimers initial !! "c" with
     | Some h => set_timers (delete "c") (clearTimeout h initial)
     | None => initial
     end, [])
  ∧ channelBatchTimers (drainMessageBatch ex_cfg "c" initial).1 !! "c" = None
  ∧ channelMessageBuffers (drainMessageBatch ex_cfg "c" initial).1
    = channelMessageBuffers initial
  ∧ suspended (drainMessageBatch ex_cfg "c" initial).1 = suspended initial.
Proof.
  apply (drain_nothing_buffered ex_cfg "c" initial). reflexivity.
Defined.

(** The buffer map after [addMessageToBatch], at or below the limit. *)
Lemma addMessageToBatch_buffers cfg now m t s :
  channelMessageBuffers (addMessageToBatch cfg now m t s).1
  = <[channel_id (channel m) :=
        buffer_of s (channel_id (channel m)) ++ [mkBatched m t now]]>
      (channelMessageBuffers s).
Proof.
  destruct (Z.le_gt_cases (MESSAGE_BATCH_SIZE cfg)
              (Z.of_nat (length (buffer_of s (channel_id (channel m))) + 1)))
    as [Hfull|Hbelow].
  - rewrite addMessageToBatch_full by done.
    by destruct (drainMessageBatch_state cfg (channel_id (channel m))
                   (pushed now m t s)) as (-> & _).
  - destruct (addMessageToBatch_below cfg now m t s Hbelow)
      as (s' & Heq & Hb & _). by rewrite Heq.
Qed.

(** A suspended drain run to its end with no other event in between. *)
Lemma drain_settles cfg s l d o r :
  suspended s = l ++ [d] → d_stage d = AwaitSendMessage →
  run cfg [SendMessageSettles (length l) o; ReplySettles (length l) r] s
  = (mkState (delete (d_channelId d) (channelMessageBuffers s))
             (channelBatchTimers s) (armed s) (nextHandle s) l,
     drain_tail d o r).
Proof.
  intros Hs Hst. destruct d as [c lm cr st]. simpl in *. subst st.
  assert (Hnone : l !! length l = None) by (by apply lookup_ge_None).
  unfold drain_sendMessage_settled, drain_tail. rewrite Hs.
  rewrite list_lookup_last. simpl.
  destruct o as [msg|e]; simpl.
  - destruct (Js.nonempty msg && cr); simpl.
    + unfold drain_reply_settled. simpl. rewrite Hs, list_insert_last.
      rewrite list_lookup_last. simpl.
      destruct r; simpl; unfold drain_finish, set_suspended, set_buffers;
        simpl; by rewrite Hs, list_insert_last, list_delete_last.
    + unfold drain_reply_settled, drain_finish, set_suspended, set_buffers.
      simpl. by rewrite Hs, list_delete_last, Hnone.
  - unfold drain_reply_settled, drain_finish, set_suspended, set_buffers.
    simpl. by rewrite Hs, list_delete_last, Hnone.
Qed.

(** X6.  A drain run to its end replies exactly when the backend call
    resolved with a non-empty text and the channel policy allows replies,
    and then to the last buffered message with that text. *)
Theorem drain_replies_iff cfg c s buffer lastB o r m' text :
  channelMessageBuffers s !! c = Some buffer →
  last buffer = Some lastB →
  Reply m' text
    ∈ (run cfg [SendMessageSettles (length (suspended s)) o;
                ReplySettles (length (suspended s)) r]
         (drainMessageBatch cfg c s).1).2
  ↔ m' = message lastB ∧ o = Resolved text ∧ text ≠ EmptyString
    ∧ shouldRespondInChannel cfg c = true.
Proof.
  intros Hb Hl. rewrite (drainMessageBatch_nonempty _ _ _ _ _ Hb Hl).
  cbn [fst].
  rewrite (drain_settles cfg _ (suspended s)
             (mkSuspended c (message lastB) (shouldRespondInChannel cfg c)
                          AwaitSendMessage) o r);
    [|by destruct (channelBatchTimers s !! c)|done].
  unfold drain_tail, Js.nonempty. cbn [snd d_canRespond d_lastMessage].
  destruct o as [msg|e].
  - destruct (String.eqb_spec msg EmptyString) as [->|Hmsg]; simpl.
    + split; [intros H; mem_inv H|]. by intros (_ & [= <-] & ? & _).
    + destruct (shouldRespondInChannel cfg c); simpl.
      * split.
        { intros H. destruct r; mem_inv H; by injection H as -> ->. }
        intros (-> & [= ->] & _). destruct r; mem_here.
      * split; [intros H; mem_inv H|]. by intros (_ & _ & _ & ?).
  - split; [intros H; mem_inv H|]. by intros (_ & ? & _).
Qed.

(** drain_replies_iff at sample data. *)
Lemma drain_replies_iff_witness :
  Reply ex_hello "ok"
    ∈ (run ex_cfg [SendMessageSettles (length (suspended ex_one_buffered))
                     (Resolved "ok");
                   ReplySettles (length (suspended ex_one_buffered))
                     (Resolved ())]
         (drainMessageBatch ex_cfg "c" ex_one_buffered).1).2
  ↔ ex_hello = message (mkBatched ex_hello GENERIC 0)
    ∧ Resolved "ok" = Resolved "ok" ∧ "ok" ≠ EmptyString
    ∧ shouldRespondInChannel ex_cfg "c" = true.
Proof.
  apply (drain_replies_iff ex_cfg "c" ex_one_buffered
           [mkBatched ex_hello GENERIC 0] (mkBatched ex_hello GENERIC 0)
           (Resolved "ok") (Resolved ()) ex_hello "ok").
  - vm_compute. reflexivity.
  - reflexivity.
Defined.

(** The armed timeouts of another channel are not touched by a drain. *)
Lemma drainMessageBatch_armed_other cfg c c' s h due :
  c' ≠ c →
  (∀ h0 x, channelBatchTimers s !! c = Some h0 → armed s !! h0 = Some x →
           x.2 = c) →
  armed (drainMessageBatch cfg c s).1 !! h = Some (due, c')
  ↔ armed s !! h = Some (due, c').
Proof.
  intros Hc Hown.
  destruct (drainMessageBatch_state cfg c s) as (_ & _ & -> & _).
  destruct (channelBatchTimers s !! c) as [h0|] eqn:E; [|done].
  rewrite lookup_delete_Some. split; [by intros [_ ?]|].
  intros H. split; [|done]. intros ->.
  specialize (Hown _ _ eq_refl H). simpl in Hown. congruence.
Qed.

(** Resuming a drain after its backend call leaves the buffers of other
    channels alone. *)
Lemma drain_sendMessage_settled_buffers k o s c' :
  d_channelId <$> suspended s !! k ≠ Some c' →
  channelMessageBuffers (drain_sendMessage_settled k o s).1 !! c'
  = channelMessageBuffers s !! c'.
Proof.
  unfold drain_sendMessage_settled.
  destruct (suspended s !! k) as [d|]; simpl; [|done].
  intros Hd. assert (d_channelId d ≠ c') by congruence.
  destruct (d_stage d), o; simpl; try done;
    try destruct (Js.nonempty a && d_canRespond d); simpl;
    by rewrite ?lookup_delete_ne.
Qed.

(** Resuming a drain after its platform send leaves the buffers of other
    channels alone. *)
Lemma drain_reply_settled_buffers k o s c' :
  d_channelId <$> suspended s !! k ≠ Some c' →
  channelMessageBuffers (drain_reply_settled k o s).1 !! c'
  = channelMessageBuffers s !! c'.
Proof.
  unfold drain_reply_settled.
  destruct (suspended s !! k) as [d|]; simpl; [|done].
  intros Hd. assert (d_channelId d ≠ c') by congruence.
  destruct (d_stage d), o; simpl; by rewrite ?lookup_delete_ne.
Qed.

(** X7.  A scheduler event leaves the buffer, the timer on record and the
    armed timeouts of every channel other than its own untouched. *)
Theorem step_other_channels cfg e s c' :
  timers_wf s →
  event_channel s e ≠ Some c' →
  channelMessageBuffers (step cfg e s).1 !! c'
  = channelMessageBuffers s !! c'
  ∧ channelBatchTimers (step cfg e s).1 !! c' = channelBatchTimers s !! c'
  ∧ ∀ h due, armed (step cfg e s).1 !! h = Some (due, c')
             ↔ armed s !! h = Some (due, c').
Proof.
  intros [Ha Hp Hf] Hc. destruct e as [now m t|h0|k o|k o]; simpl in *.
  - assert (Hne : c' ≠ channel_id (channel m)) by congruence.
    destruct (Z.le_gt_cases (MESSAGE_BATCH_SIZE cfg)
                (Z.of_nat (length (buffer_of s (channel_id (channel m))) + 1)))
      as [Hfull|Hbelow].
    + rewrite addMessageToBatch_full by done.
      destruct (drainMessageBatch_state cfg (channel_id (channel m))
                  (pushed now m t s)) as (-> & -> & _).
      split; [by apply lookup_insert_ne|].
      split; [by apply lookup_delete_ne|].
      intros h due. rewrite drainMessageBatch_armed_other; [done|done|].
      intros h1 x H1 H2. simpl in *.
      destruct (Hp _ _ H1) as [due' Hd]. by simplify_eq.
    + destruct (addMessageToBatch_below cfg now m t s Hbelow)
        as (s' & -> & Hb & Ht & Har & _). simpl.
      rewrite Hb, Ht, Har.
      split; [by apply lookup_insert_ne|].
      split; [by apply lookup_insert_ne|].
      intros h due.
      destruct (decide (nextHandle s = h)) as [<-|Hh].
      * rewrite lookup_insert_eq. split; [congruence|].
        intros H. assert (nextHandle s < nextHandle s)%nat
          by (apply Hf; by eexists). lia.
      * rewrite lookup_insert_ne by done. unfold cleared.
        destruct (channelBatchTimers s !! channel_id (channel m))
          as [h1|] eqn:E; [|done].
        rewrite lookup_delete_Some. split; [by intros [_ ?]|].
        intros H. split; [|done]. intros ->.
        destruct (Hp _ _ E) as [due' Hd]. congruence.
  - destruct (armed s !! h0) as [[due0 c]|] eqn:Hh; [|done].
    simpl in Hc. assert (Hne : c' ≠ c) by congruence.
    destruct (drainMessageBatch_state cfg c
                (mkState (channelMessageBuffers s) (channelBatchTimers s)
                   (delete h0 (armed s)) (nextHandle s) (suspended s)))
      as (-> & -> & _). simpl.
    split; [done|]. split; [by apply lookup_delete_ne|].
    intros h due. rewrite drainMessageBatch_armed_other; [|done|]; simpl.
    + rewrite lookup_delete_Some. split; [by intros [_ ?]|].
      intros H. split; [|done]. intros ->. congruence.
    + intros h1 x H1 [_ H2]%lookup_delete_Some.
      destruct (Hp _ _ H1) as [due' Hd]. by simplify_eq.
  - destruct (drain_sendMessage_settled_timers k o s) as (-> & -> & _).
    split; [by apply drain_sendMessage_settled_buffers|done].
  - destruct (drain_reply_settled_timers k o s) as (-> & -> & _).
    split; [by apply drain_reply_settled_buffers|done].
Qed.

(** step_other_channels at sample data. *)
Lemma step_other_channels_witness :
  channelMessageBuffers
    (step ex_cfg (Enqueue 5 ex_message_in_d GENERIC) ex_one_buffered).1 !! "c"
  = channelMessageBuffers ex_one_buffered !! "c"
  ∧ channelBatchTimers
      (step ex_cfg (Enqueue 5 ex_message_in_d GENERIC) ex_one_buffered).1 !! "c"
    = channelBatchTimers ex_one_buffered !! "c"
  ∧ ∀ h due,
      armed (step ex_cfg (Enqueue 5 ex_message_in_d GENERIC)
               ex_one_buffered).1 !! h = Some (due, "c")
      ↔ armed ex_one_buffered !! h = Some (due, "c").
Proof.
  apply (step_other_channels ex_cfg (Enqueue 5 ex_message_in_d GENERIC)
           ex_one_buffered "c").
  - apply run_wf, timers_wf_initial.
  - discriminate.
Defined.

(** X8.  Enqueues only append: after any sequence of enqueues, whether or
    not drains were started on the way, each channel's buffer is its old
    content followed by that channel's new items in arrival order. *)
Theorem enqueues_append cfg es s c :
  buffer_of (run cfg (enqueues es) s).1 c
  = buffer_of s c ++ batched (for_channel c es).
Proof.
  revert s. induction es as [|[[now m] t] es IH]; intros s; simpl.
  - by rewrite app_nil_r.
  - pose proof (addMessageToBatch_buffers cfg now m t s) as Hb.
    destruct (addMessageToBatch cfg now m t s) as [s1 o1]. simpl in Hb.
    specialize (IH s1). destruct (run cfg (enqueues es) s1) as [s2 o2].
    simpl in *. rewrite IH. unfold for_channel. rewrite filter_cons. simpl.
    unfold buffer_of at 1. rewrite Hb.
    destruct (decide (channel_id (channel m) = c)) as [->|Hne]; simpl.
    + rewrite lookup_insert_eq. simpl. by rewrite <- app_assoc.
    + by rewrite lookup_insert_ne.
Qed.

(** X9.  Whenever the push brings the buffer to the size limit or beyond,
    in particular on every enqueue when the limit is 1, 0 or negative, the
    backend call is issued at once with a payload listing the whole buffer
    in arrival order, the channel keeps no timer and no timeout is armed. *)
Theorem enqueue_at_or_above_limit cfg now m t s :
  timers_wf s →
  MESSAGE_BATCH_SIZE cfg
    ≤ Z.of_nat (length (buffer_of s (channel_id (channel m))) + 1) →
  let c := channel_id (channel m) in
  ∃ s' payload,
    addMessageToBatch cfg now m t s =
      (s', [SendMessage m t (shouldRespondInChannel cfg c) (Some payload)])
    ∧ renders (buffer_of s c ++ [mkBatched m t now]) m c payload
    ∧ channelBatchTimers s' !! c = None
    ∧ (∀ h due, armed s' !! h ≠ Some (due, c))
    ∧ (∀ h x, armed s' !! h = Some x → armed s !! h = Some x).
Proof.
  intros [Ha Hp Hf] Hlen c.
  rewrite addMessageToBatch_full by done. fold c.
  assert (Hb : channelMessageBuffers (pushed now m t s) !! c
               = Some (buffer_of s c ++ [mkBatched m t now])).
  { unfold pushed. fold c. simpl. apply lookup_insert_eq. }
  rewrite (drainMessageBatch_nonempty _ _ _ _ _ Hb (last_snoc _ _)).
  eexists. eexists. split; [reflexivity|].
  split; [apply batchMessage_renders|]. simpl.
  destruct (channelBatchTimers s !! c) as [h0|] eqn:E; simpl.
  - split; [apply lookup_delete_eq|]. split.
    + intros h due [Hne H]%lookup_delete_Some. apply Ha in H. congruence.
    + by intros h x [_ H]%lookup_delete_Some.
  - split; [done|]. split; [|done].
    intros h due H. apply Ha in H. congruence.
Qed.

(** enqueue_at_or_above_limit at sample data. *)
Lemma enqueue_at_or_above_limit_witness :
  let c := channel_id (channel ex_hello) in
  ∃ s' payload,
    addMessageToBatch ex_cfg_size0 0 ex_hello GENERIC initial =
      (s', [SendMessage ex_hello GENERIC
              (shouldRespondInChannel ex_cfg_size0 c) (Some payload)])
    ∧ renders (buffer_of initial c ++ [mkBatched ex_hello GENERIC 0])
              ex_hello c payload
    ∧ channelBatchTimers s' !! c = None
    ∧ (∀ h due, armed s' !! h ≠ Some (due, c))
    ∧ (∀ h x, armed s' !! h = Some x → armed initial !! h = Some x).
Proof.
  apply (enqueue_at_or_above_limit ex_cfg_size0 0 ex_hello GENERIC initial).
  - apply timers_wf_initial.
  - vm_compute. discriminate.
Defined.

(** The maps after a non-empty run of enqueues to one channel that stays
    below the size limit. *)
Lemma run_enqueues_exact cfg c es s :
  timers_wf s →
  es ≠ [] →
  Forall (λ e, channel_id (channel e.1.2) = c) es →
  Z.of_nat (length (buffer_of s c) + length es) < MESSAGE_BATCH_SIZE cfg →
  ∃ s1 h due, run cfg (enqueues es) s = (s1, [])
    ∧ channelMessageBuffers s1
      = <[c := buffer_of s c ++ batched es]> (channelMessageBuffers s)
    ∧ channelBatchTimers s1 = <[c := h]> (channelBatchTimers s)
    ∧ armed s1 = <[h := (due, c)]> (cleared c s)
    ∧ cleared c s !! h = None
    ∧ suspended s1 = suspended s.
Proof.
  revert s. induction es as [|[[now m] t] es IH]; intros s Hwf Hne Hall Hlen;
    [done|].
  apply Forall_cons in Hall as [Hc Hall]. simpl in Hc, Hlen.
  assert (Hlt : Z.of_nat (length (buffer_of s (channel_id (channel m))) + 1)
                < MESSAGE_BATCH_SIZE cfg) by (rewrite Hc; lia).
  destruct (enqueue_below_timer cfg now m t s Hwf Hlt)
    as (_ & _ & _ & _ & _ & _ & Hwf1).
  destruct (addMessageToBatch_below cfg now m t s Hlt)
    as (s1 & Heq & Hb & Ht & Har & Hn & Hsu).
  rewrite Heq in Hwf1. simpl in Hwf1. rewrite Hc in Hb, Ht, Har.
  assert (Hfresh : cleared c s !! nextHandle s = None).
  { destruct (cleared c s !! nextHandle s) as [x|] eqn:E; [|done].
    assert (armed s !! nextHandle s = Some x).
    { unfold cleared in E. destruct (channelBatchTimers s !! c); [|done].
      by apply lookup_delete_Some in E as [_ ?]. }
    assert (nextHandle s < nextHandle s)%nat
      by (apply (wf_fresh _ Hwf); by eexists). lia. }
  destruct es as [|e es].
  { exists s1, (nextHandle s),
      (now + timeout_delay (MESSAGE_BATCH_TIMEOUT_MS cfg)).
    simpl. by rewrite Heq. }
  pose proof (buffer_of_insert _ _ _ _ Hb) as Hb1.
  destruct (IH s1 Hwf1) as (s2 & h & due & Hrun & Hb2 & Ht2 & Har2 & Hf2 & Hsu2);
    [done|done| |].
  { rewrite Hb1, length_app. simpl in *. lia. }
  assert (Hcl : cleared c s1 = cleared c s).
  { unfold cleared at 1. rewrite Ht, lookup_insert_eq, Har.
    rewrite delete_insert_eq. by apply delete_id. }
  exists s2, h, due. change (enqueues ((now, m, t) :: e :: es))
    with (Enqueue now m t :: enqueues (e :: es)).
  cbn [run step]. rewrite Heq, Hrun. split; [done|].
  rewrite Hb2, Ht2, Har2, Hb, Ht, Hb1, Hcl, Hsu2, Hsu.
  rewrite !insert_insert_eq, <- app_assoc. rewrite Hcl in Hf2. done.
Qed.

(** X10.  A full undisturbed cycle on a channel with neither buffer nor
    timer (enqueues below the limit, the timeout firing, the backend call
    and the reply settling) issues nothing before the timeout, then one
    backend call, first of the effects and the only call among them, whose
    payload lists all items in arrival order, and gives back the buffer map,
    the timer map, the armed timeouts and the suspended drains it started
    from. *)
Theorem batch_cycle_round_trip cfg c s es o r :
  timers_wf s →
  channelMessageBuffers s !! c = None →
  channelBatchTimers s !! c = None →
  es ≠ [] →
  Forall (λ e, channel_id (channel e.1.2) = c) es →
  Z.of_nat (length es) < MESSAGE_BATCH_SIZE cfg →
  ∃ s1 h lastB,
    run cfg (enqueues es) s = (s1, [])
    ∧ channelBatchTimers s1 !! c = Some h
    ∧ last (batched es) = Some lastB
    ∧ ∃ s2 payload rest,
        run cfg [TimeoutFires h;
                 SendMessageSettles (length (suspended s)) o;
                 ReplySettles (length (suspended s)) r] s1
        = (s2,
           SendMessage (message lastB) (messageType lastB)
             (shouldRespondInChannel cfg c) (Some payload)
           :: rest)
        ∧ renders (batched es) (message lastB) c payload
        ∧ calls rest = []
        ∧ channelMessageBuffers s2 = channelMessageBuffers s
        ∧ channelBatchTimers s2 = channelBatchTimers s
        ∧ armed s2 = armed s
        ∧ suspended s2 = suspended s.
Proof.
  intros Hwf Hb0 Ht0 Hne Hall Hlen.
  assert (Hbo : buffer_of s c = []) by (unfold buffer_of; by rewrite Hb0).
  destruct (run_enqueues_exact cfg c es s Hwf Hne Hall)
    as (s1 & h & due & Hrun & Hb & Ht & Har & Hf & Hsu).
  { rewrite Hbo. simpl. lia. }
  assert (Hcl : cleared c s = armed s) by (unfold cleared; by rewrite Ht0).
  rewrite Hbo, Hcl in *. simpl in Hb.
  destruct (last (batched es)) as [lastB|] eqn:Hl.
  2:{ apply last_None in Hl. destruct es; done. }
  exists s1, h, lastB. split; [done|].
  split; [by rewrite Ht, lookup_insert_eq|]. split; [done|].
  set (d := mkSuspended c (message lastB) (shouldRespondInChannel cfg c)
                        AwaitSendMessage).
  change [TimeoutFires h; SendMessageSettles (length (suspended s)) o;
          ReplySettles (length (suspended s)) r]
    with ([TimeoutFires h]
          ++ [SendMessageSettles (length (suspended s)) o;
              ReplySettles (length (suspended s)) r]).
  assert (Hfire : ∃ sd,
    run cfg [TimeoutFires h] s1
    = (sd, [SendMessage (message lastB) (messageType lastB)
              (shouldRespondInChannel cfg c)
              (Some (batchMessage (batched es) (message lastB) c))])
    ∧ channelMessageBuffers sd = channelMessageBuffers s1
    ∧ channelBatchTimers sd = delete c (channelBatchTimers s1)
    ∧ armed sd = delete h (delete h (armed s1))
    ∧ suspended sd = suspended s ++ [d]).
  { cbn [run step]. rewrite Har, lookup_insert_eq.
    erewrite drainMessageBatch_nonempty;
      [|simpl; by rewrite Hb, lookup_insert_eq|done].
    simpl. rewrite Ht, lookup_insert_eq.
    eexists. split; [reflexivity|]. simpl. by rewrite ?Ht, ?Har, ?Hsu. }
  destruct Hfire as (sd & Hfire & Hbd & Htd & Hard & Hsud).
  rewrite run_app, Hfire.
  rewrite (drain_settles cfg sd (suspended s) d o r) by done.
  eexists. eexists. eexists. split; [reflexivity|].
  split; [apply batchMessage_renders|].
  split; [apply calls_drain_tail|]. simpl.
  rewrite Hbd, Htd, Hard, Hb, Ht, Har.
  rewrite !delete_insert_eq, !delete_delete_eq.
  by rewrite (delete_id _ _ Hb0), (delete_id _ _ Ht0), (delete_id _ _ Hf).
Qed.

(** batch_cycle_round_trip at sample data. *)
Lemma batch_cycle_round_trip_witness :
  ∃ s1 h lastB,
    run ex_cfg (enqueues [(0, ex_hello, GENERIC); (5, ex_again, GENERIC)])
        initial = (s1, [])
    ∧ channelBatchTimers s1 !! "c" = Some h
    ∧ last (batched [(0, ex_hello, GENERIC); (5, ex_again, GENERIC)])
      = Some lastB
    ∧ ∃ s2 payload rest,
        run ex_cfg [TimeoutFires h;
                    SendMessageSettles (length (suspended initial))
                      (Resolved "ok");
                    ReplySettles (length (suspended initial)) (Resolved ())]
            s1
        = (s2,
           SendMessage (message lastB) (messageType lastB)
             (shouldRespondInChannel ex_cfg "c") (Some payload)
           :: rest)
        ∧ renders (batched [(0, ex_hello, GENERIC); (5, ex_again, GENERIC)])
                  (message lastB) "c" payload
        ∧ calls rest = []
        ∧ channelMessageBuffers s2 = channelMessageBuffers initial
        ∧ channelBatchTimers s2 = channelBatchTimers initial
        ∧ armed s2 = armed initial
        ∧ suspended s2 = suspended initial.
Proof.
  apply (batch_cycle_round_trip ex_cfg "c" initial
           [(0, ex_hello, GENERIC); (5, ex_again, GENERIC)]
           (Resolved "ok") (Resolved ())).
  - apply timers_wf_initial.
  - reflexivity.
  - reflexivity.
  - discriminate.
  - repeat constructor.
  - reflexivity.
Defined.

(** X25.  A drain of a non-empty buffer removes the channel's timer from
    [channelBatchTimers] and disarms it before the backend call is issued;
    once the drain has run to its end the channel's buffer entry is gone
    and the drain is no longer suspended, whatever the outcome [o] of the
    backend call and [r] of the platform send. *)
Theorem drain_clears_timer_then_buffer cfg c s buffer
    (o : Outcome string) (r : Outcome unit) :
  channelMessageBuffers s !! c = Some buffer → buffer ≠ [] →
  ∃ lastB s1 payload, last buffer = Some lastB
    ∧ drainMessageBatch cfg c s =
        (s1, [SendMessage (message lastB) (messageType lastB)
                (shouldRespondInChannel cfg c) (Some payload)])
    ∧ renders buffer (message lastB) c payload
    ∧ channelBatchTimers s1 !! c = None
    ∧ (∀ h, channelBatchTimers s !! c = Some h → armed s1 !! h = None)
    ∧ let k := length (suspended s) in
      let s2 := (run cfg [SendMessageSettles k o; ReplySettles k r] s1).1 in
      channelMessageBuffers s2 !! c = None ∧ suspended s2 = suspended s.
Proof.
  intros Hb Hne.
  destruct (last buffer) as [lastB|] eqn:Hl;
    [|by apply last_None in Hl].
  exists lastB. eexists. eexists. split; [done|].
  split; [by apply drainMessageBatch_nonempty|].
  split; [apply batchMessage_renders|].
  split; [|split].
  - destruct (channelBatchTimers s !! c) eqn:E; simpl;
      [apply lookup_delete_eq|done].
  - intros h Hh. rewrite Hh. simpl. apply lookup_delete_eq.
  - cbv zeta.
    rewrite (drain_settles cfg _ (suspended s)
               (mkSuspended c (message lastB) (shouldRespondInChannel cfg c)
                            AwaitSendMessage) o r);
      [|by destruct (channelBatchTimers s !! c)|done].
    simpl. split; [apply lookup_delete_eq|done].
Qed.

(** drain_clears_timer_then_buffer at a buffer of one message and a failing
    backend call. *)
Lemma drain_clears_timer_then_buffer_witness :
  ∃ lastB s1 payload, last [mkBatched ex_hello GENERIC 0] = Some lastB
    ∧ drainMessageBatch ex_cfg "c" ex_one_buffered =
        (s1, [SendMessage (message lastB) (messageType lastB)
                (shouldRespondInChannel ex_cfg "c") (Some payload)])
    ∧ renders [mkBatched ex_hello GENERIC 0] (message lastB) "c" payload
    ∧ channelBatchTimers s1 !! "c" = None
    ∧ (∀ h, channelBatchTimers ex_one_buffered !! "c" = Some h →
            armed s1 !! h = None)
    ∧ let k := length (suspended ex_one_buffered) in
      let s2 := (run ex_cfg [SendMessageSettles k (Rejected "backend down");
                             ReplySettles k (Resolved ())] s1).1 in
      channelMessageBuffers s2 !! "c" = None
      ∧ suspended s2 = suspended ex_one_buffered.
Proof.
  apply (drain_clears_timer_then_buffer ex_cfg "c" ex_one_buffered
           [mkBatched ex_hello GENERIC 0] (Rejected "backend down")
           (Resolved ())).
  - vm_compute. reflexivity.
  - discriminate.
Defined.

(** ** Invariants of the reachable states *)

(** X11.  In every reachable state a channel has at most one armed timeout,
    and it is the one [channelBatchTimers] has on record. *)
Theorem reachable_one_timer_per_channel cfg es c h1 h2 due1 due2 :
  armed (run cfg es initial).1 !! h1 = Some (due1, c) →
  armed (run cfg es initial).1 !! h2 = Some (due2, c) →
  h1 = h2 ∧ due1 = due2
  ∧ channelBatchTimers (run cfg es initial).1 !! c = Some h1.
Proof.
  intros H1 H2.
  destruct (run_wf cfg es initial timers_wf_initial) as [Ha _ _].
  pose proof (Ha _ _ _ H1) as E1. pose proof (Ha _ _ _ H2) as E2.
  assert (h1 = h2) as -> by congruence.
  split; [done|]. split; [congruence|done].
Qed.

(** reachable_one_timer_per_channel at sample data. *)
Lemma reachable_one_timer_per_channel_witness :
  0%nat = 0%nat ∧ 30000 = 30000
  ∧ channelBatchTimers (run ex_cfg [Enqueue 0 ex_hello GENERIC] initial).1
      !! "c" = Some 0%nat.
Proof.
  apply (reachable_one_timer_per_channel ex_cfg [Enqueue 0 ex_hello GENERIC]
           "c" 0%nat 0%nat 30000 30000).
  - vm_compute. reflexivity.
  - vm_compute. reflexivity.
Defined.

(** Finishing a drain of another channel keeps a drain pending. *)
Lemma drain_pending_delete s l k d c :
  suspended s = l → l !! k = Some d → d_channelId d ≠ c →
  (∃ k' d', l !! k' = Some d' ∧ d_channelId d' = c) →
  ∃ k' d', delete k l !! k' = Some d' ∧ d_channelId d' = c.
Proof.
  intros _ Hk Hne (k' & d' & Hk' & Hc).
  assert (k' ≠ k) by (intros ->; congruence).
  destruct (decide (k' < k)%nat).
  - exists k', d'. by rewrite list_lookup_delete_lt.
  - exists (k' - 1)%nat, d'. rewrite list_lookup_delete_ge by lia.
    by replace (S (k' - 1)) with k' by lia.
Qed.

(** Moving a drain to its next stage keeps every pending drain pending. *)
Lemma drain_pending_insert (l : list Suspended) k d d' c :
  l !! k = Some d → d_channelId d' = d_channelId d →
  (∃ k' d0, l !! k' = Some d0 ∧ d_channelId d0 = c) →
  ∃ k' d0, <[k := d']> l !! k' = Some d0 ∧ d_channelId d0 = c.
Proof.
  intros Hk Hc (k' & d0 & Hk' & Hc0).
  destruct (decide (k' = k)) as [->|Hne].
  - exists k, d'. rewrite list_lookup_insert_eq by (by eapply lookup_lt_Some).
    split; [done|]. congruence.
  - exists k', d0. by rewrite list_lookup_insert_ne.
Qed.

(** A drain of [c] re-establishes [buffers_scheduled] when only [c] itself
    may lack a timer. *)
Lemma drainMessageBatch_scheduled cfg c s :
  (∀ c0 b, c0 ≠ c → channelMessageBuffers s !! c0 = Some b →
           b ≠ [] ∧ (is_Some (channelBatchTimers s !! c0) ∨ drain_pending s c0)) →
  (∀ b, channelMessageBuffers s !! c = Some b → b ≠ []) →
  buffers_scheduled (drainMessageBatch cfg c s).1.
Proof.
  intros Hother Hown c0 b.
  destruct (drainMessageBatch_state cfg c s) as (Hb & Ht & _).
  rewrite Hb, Ht. intros Hc0.
  assert (Hsusp : ∀ c1, drain_pending s c1 →
                        drain_pending (drainMessageBatch cfg c s).1 c1).
  { intros c1 (k & d & Hk & Hd). unfold drainMessageBatch.
    destruct (channelMessageBuffers s !! c) as [b'|]; [destruct (last b')|];
      destruct (channelBatchTimers s !! c); simpl; exists k, d;
      (split; [|done]); try done; by apply lookup_app_l_Some. }
  destruct (decide (c0 = c)) as [->|Hne].
  - split; [by apply Hown|]. right.
    pose proof (Hown _ Hc0) as Hb'.
    destruct (last b) as [lastB|] eqn:Hl; [|by apply last_None in Hl].
    rewrite (drainMessageBatch_nonempty _ _ _ _ _ Hc0 Hl).
    exists (length (suspended s)),
      (mkSuspended c (message lastB) (shouldRespondInChannel cfg c)
                   AwaitSendMessage).
    simpl. split; [|done].
    destruct (channelBatchTimers s !! c); simpl; apply list_lookup_last.
  - destruct (Hother _ _ Hne Hc0) as [Hb' [Htm|Hp]].
    + split; [done|]. left. by rewrite lookup_delete_ne.
    + split; [done|]. right. by apply Hsusp.
Qed.

(** [addMessageToBatch] keeps [buffers_scheduled]. *)
Lemma addMessageToBatch_scheduled cfg now m t s :
  buffers_scheduled s → buffers_scheduled (addMessageToBatch cfg now m t s).1.
Proof.
  intros Hinv.
  destruct (Z.le_gt_cases (MESSAGE_BATCH_SIZE cfg)
              (Z.of_nat (length (buffer_of s (channel_id (channel m))) + 1)))
    as [Hfull|Hbelow].
  - rewrite addMessageToBatch_full by done.
    apply drainMessageBatch_scheduled.
    + intros c0 b Hne. unfold pushed. simpl.
      rewrite lookup_insert_ne by done. apply Hinv.
    + intros b. unfold pushed. simpl. rewrite lookup_insert_eq.
      intros [= <-]. by destruct (buffer_of s _).
  - destruct (addMessageToBatch_below cfg now m t s Hbelow)
      as (s' & -> & Hb & Ht & _ & _ & Hsu). simpl.
    intros c0 b. rewrite Hb, Ht. unfold drain_pending. rewrite Hsu.
    destruct (decide (channel_id (channel m) = c0)) as [<-|Hne].
    + rewrite !lookup_insert_eq. intros [= <-].
      split; [by destruct (buffer_of s _)|]. left. by eexists.
    + rewrite !lookup_insert_ne by done. apply Hinv.
Qed.

(** The end of a drain keeps [buffers_scheduled]. *)
Lemma drain_finish_scheduled k d s :
  suspended s !! k = Some d →
  buffers_scheduled s → buffers_scheduled (drain_finish k d s).
Proof.
  intros Hk Hinv c0 b. unfold drain_finish, drain_pending. simpl.
  intros [Hne Hb]%lookup_delete_Some.
  destruct (Hinv _ _ Hb) as [Hb' [Htm|Hp]]; [by split; [|left]|].
  split; [done|]. right. by eapply drain_pending_delete.
Qed.

(** Resuming a drain after its backend call keeps [buffers_scheduled]. *)
Lemma drain_sendMessage_settled_scheduled k o s :
  buffers_scheduled s → buffers_scheduled (drain_sendMessage_settled k o s).1.
Proof.
  intros Hinv. unfold drain_sendMessage_settled.
  destruct (suspended s !! k) as [d|] eqn:Hk; [|done].
  destruct (d_stage d), o as [msg|e]; simpl; try done;
    try by apply drain_finish_scheduled.
  destruct (Js.nonempty msg && d_canRespond d); simpl;
    [|by apply drain_finish_scheduled].
  intros c0 b Hb. simpl in Hb.
  destruct (Hinv _ _ Hb) as [Hb' [Htm|Hp]]; [by split; [|left]|].
  split; [done|]. right. unfold drain_pending. simpl.
  by eapply drain_pending_insert.
Qed.

(** Resuming a drain after its platform send keeps [buffers_scheduled]. *)
Lemma drain_reply_settled_scheduled k o s :
  buffers_scheduled s → buffers_scheduled (drain_reply_settled k o s).1.
Proof.
  intros Hinv. unfold drain_reply_settled.
  destruct (suspended s !! k) as [d|] eqn:Hk; [|done].
  destruct (d_stage d), o; simpl; try done; by apply drain_finish_scheduled.
Qed.

(** Every scheduler step keeps [buffers_scheduled]. *)
Lemma step_scheduled cfg e s :
  buffers_scheduled s → buffers_scheduled (step cfg e s).1.
Proof.
  intros Hinv. destruct e as [now m t|h|k o|k o]; simpl.
  - by apply addMessageToBatch_scheduled.
  - destruct (armed s !! h) as [[due c]|]; [|done].
    apply drainMessageBatch_scheduled.
    + intros c0 b _ Hb. by apply Hinv.
    + intros b Hb. by apply (Hinv c b).
  - by apply drain_sendMessage_settled_scheduled.
  - by apply drain_reply_settled_scheduled.
Qed.

(** X12.  In every reachable state every buffer in the map is non-empty and
    its channel has a timer on record or a drain in flight. *)
Theorem reachable_buffers_scheduled cfg es :
  buffers_scheduled (run cfg es initial).1.
Proof.
  assert (H : ∀ s, buffers_scheduled s → buffers_scheduled (run cfg es s).1).
  { induction es as [|e es IH]; intros s Hs; simpl; [done|].
    pose proof (step_scheduled cfg e s Hs) as H1.
    destruct (step cfg e s) as [s1 o1]. specialize (IH s1 H1).
    by destruct (run cfg es s1). }
  apply H. intros c b. simpl. by rewrite lookup_empty.
Qed.

(** ** More on the handlers *)

(** X13.  With batching disabled [processAndSendMessage] never rejects,
    leaves the batching state alone, calls the backend once without a
    consolidated payload, and replies exactly when the backend resolved with
    a non-empty text and the channel policy allows replies. *)
Theorem processAndSendMessage_immediate cfg w m t s :
  MESSAGE_BATCH_ENABLED cfg = false →
  let canRespond := shouldRespondInChannel cfg (channel_id (channel m)) in
  let r := processAndSendMessage cfg w m t s in
  r.1 = (Resolved (), s)
  ∧ payloads r.2 = [None]
  ∧ ∀ m' text,
      Reply m' text ∈ r.2
      ↔ m' = m ∧ sendMessage_result w m t canRespond None = Resolved text
        ∧ text ≠ EmptyString ∧ canRespond = true.
Proof.
  intros Hb canRespond r. subst r.
  unfold processAndSendMessage, try_catch, mbind, M_bind, await, console_error,
    Js.nonempty. rewrite Hb. fold canRespond.
  destruct (sendMessage_result w m t canRespond None) as [msg|e]; simpl.
  2:{ split; [done|]. split; [done|]. intros m' text.
      split; [intros H; mem_inv H|]. by intros (_ & ? & _). }
  destruct (String.eqb_spec msg EmptyString) as [->|Hmsg]; simpl.
  { split; [done|]. split; [done|]. intros m' text.
    split; [intros H; mem_inv H|]. by intros (_ & [= <-] & ? & _). }
  destruct canRespond; simpl.
  - destruct (reply_result w m msg) as [[]|e]; simpl.
    all: split; [done|]; split; [done|]; intros m' text.
    all: split; [intros H; mem_inv H; by injection H as -> ->|].
    all: intros (-> & [= ->] & _); mem_here.
  - split; [done|]. split; [done|]. intros m' text.
    split; [intros H; mem_inv H|]. by intros (_ & _ & _ & ?).
Qed.

(** processAndSendMessage_immediate at sample data. *)
Lemma processAndSendMessage_immediate_witness :
  let w := ex_world ex_m0_by_bob (Resolved "hi") (Resolved ()) in
  let cfg := with_batching false ex_cfg in
  let canRespond := shouldRespondInChannel cfg (channel_id (channel ex_dm)) in
  let r := processAndSendMessage cfg w ex_dm DM initial in
  r.1 = (Resolved (), initial)
  ∧ payloads r.2 = [None]
  ∧ ∀ m' text,
      Reply m' text ∈ r.2
      ↔ m' = ex_dm
        ∧ sendMessage_result w ex_dm DM canRespond None = Resolved text
        ∧ text ≠ EmptyString ∧ canRespond = true.
Proof.
  intros w cfg.
  apply (processAndSendMessage_immediate cfg w ex_dm DM initial).
  reflexivity.
Defined.

(** X14.  With a listening channel configured, an event from any other
    channel is dropped: no state change, no effect. *)
Theorem messageCreate_other_channel cfg w m s id :
  CHANNEL_ID cfg = Some id → id ≠ EmptyString →
  channel_id (channel m) ≠ id →
  messageCreate cfg w m s = (Resolved (), s, []).
Proof.
  intros Hc Hid Hne. unfold messageCreate, Js.truthy, Js.nonempty.
  rewrite Hc. apply String.eqb_neq in Hid. rewrite Hid. simpl.
  rewrite bool_decide_eq_false_2; [done|]. congruence.
Qed.

(** messageCreate_other_channel at sample data. *)
Lemma messageCreate_other_channel_witness :
  messageCreate ex_cfg_listen
    (ex_world ex_m0_by_bob (Resolved "hi") (Resolved ())) ex_message_in_d
    initial
  = (Resolved (), initial, []).
Proof.
  apply (messageCreate_other_channel ex_cfg_listen _ ex_message_in_d initial
           "c").
  - reflexivity.
  - discriminate.
  - discriminate.
Defined.

(** X15.  A direct message with [RESPOND_TO_DMS] off, and a guild message
    with [RESPOND_TO_GENERIC] off that is not handled as a mention (mention
    handling off, or neither mention nor reply), are dropped. *)
Theorem messageCreate_toggles_off cfg w m s :
  match guild m with
  | None => RESPOND_TO_DMS cfg = false
  | Some _ =>
      RESPOND_TO_GENERIC cfg = false
      ∧ (RESPOND_TO_MENTIONS cfg = false
         ∨ (mentions_has_client m = false ∧ reference m = None))
  end →
  messageCreate cfg w m s = (Resolved (), s, []).
Proof.
  unfold messageCreate.
  destruct (Js.truthy (CHANNEL_ID cfg) && _); [done|].
  destruct (is_client_user w _); [done|].
  destruct (bot (author m) && _); [done|].
  destruct (Js.startsWith "!" (content m)); [done|].
  destruct (guild m) as [g|]; [|by intros ->].
  intros [-> [->|[-> ->]]]; [done|]. simpl. by rewrite andb_false_r.
Qed.

(** messageCreate_toggles_off at sample data. *)
Lemma messageCreate_toggles_off_witness :
  messageCreate ex_cfg_quiet
    (ex_world ex_m0_by_bob (Resolved "hi") (Resolved ())) ex_mention initial
  = (Resolved (), initial, []).
Proof.
  apply (messageCreate_toggles_off ex_cfg_quiet _ ex_mention initial).
  simpl. split; [reflexivity|]. left. reflexivity.
Defined.

(** A call that is not awaited cannot reject its caller. *)
Lemma detached_resolves (body : M unit) s : (detached body s).1.1 = Resolved ().
Proof. unfold detached. by destruct (body s) as [[? ?] ?]. Qed.

(** A drain start issues at most a backend call. *)
Lemma drainMessageBatch_out_silent cfg c s :
  Forall silent (drainMessageBatch cfg c s).2.
Proof.
  unfold drainMessageBatch.
  destruct (channelMessageBuffers s !! c) as [b|]; [destruct (last b)|];
    simpl; repeat constructor.
Qed.

(** [addMessageToBatch] issues at most a backend call. *)
Lemma addMessageToBatch_out_silent cfg now m t s :
  Forall silent (addMessageToBatch cfg now m t s).2.
Proof.
  destruct (Z.le_gt_cases (MESSAGE_BATCH_SIZE cfg)
              (Z.of_nat (length (buffer_of s (channel_id (channel m))) + 1)))
    as [Hfull|Hbelow].
  - rewrite addMessageToBatch_full by done. apply drainMessageBatch_out_silent.
  - by destruct (addMessageToBatch_below cfg now m t s Hbelow) as (s' & -> & _).
Qed.

(** A silent effect list holds no typing indicator. *)
Lemma silent_not_typing (out : list Effect) c :
  Forall silent out → SendTyping c ∉ out.
Proof. rewrite Forall_forall. intros H Hin. by apply H in Hin. Qed.

(** A silent effect list holds no reply. *)
Lemma silent_not_reply (out : list Effect) m text :
  Forall silent out → Reply m text ∉ out.
Proof. rewrite Forall_forall. intros H Hin. by apply H in Hin. Qed.

(** X16.  With [RESPOND_TO_MENTIONS] off and [RESPOND_TO_GENERIC] on, a
    guild message that passes the filters is dispatched as [GENERIC] even
    when it mentions or replies to the agent; the handler does not reject
    and sends no typing indicator. *)
Theorem messageCreate_mentions_off cfg w m s :
  (Js.truthy (CHANNEL_ID cfg)
   && negb (bool_decide (Some (channel_id (channel m)) = CHANNEL_ID cfg))
   = false) →
  is_client_user w (user_id (author m)) = false →
  bot (author m) && negb (RESPOND_TO_BOTS cfg) = false →
  Js.startsWith "!" (content m) = false →
  guild m ≠ None →
  RESPOND_TO_MENTIONS cfg = false →
  RESPOND_TO_GENERIC cfg = true →
  (messageCreate cfg w m s).1.1 = Resolved ()
  ∧ dispatched_as cfg w m GENERIC s (messageCreate cfg w m s)
  ∧ ∀ c, SendTyping c ∉ (messageCreate cfg w m s).2.
Proof.
  intros H1 H2 H3 H4 Hg Hm Hgen. unfold messageCreate.
  rewrite H1, H2, H3, H4, Hm, Hgen.
  destruct (guild m) as [g|]; [|done]. simpl.
  split; [apply detached_resolves|].
  split; [apply detached_dispatches, processAndSendMessage_dispatches|].
  intros c.
  unfold detached, processAndSendMessage, try_catch, mbind, M_bind, await,
    engine, console_error.
  destruct (MESSAGE_BATCH_ENABLED cfg).
  - pose proof (addMessageToBatch_out_silent cfg (now w) m GENERIC s) as Hs.
    destruct (addMessageToBatch cfg (now w) m GENERIC s) as [s1 out].
    by apply silent_not_typing.
  - destruct (sendMessage_result w m GENERIC _ None) as [msg|e]; simpl;
      [|intros H; mem_inv H].
    destruct (Js.nonempty msg && _); simpl; [|intros H; mem_inv H].
    destruct (reply_result w m msg) as [[]|e]; simpl; intros H; mem_inv H.
Qed.

(** messageCreate_mentions_off at sample data. *)
Lemma messageCreate_mentions_off_witness :
  let w := ex_world ex_m0_by_bob (Resolved "hi") (Resolved ()) in
  (messageCreate ex_cfg_no_mentions w ex_mention initial).1.1 = Resolved ()
  ∧ dispatched_as ex_cfg_no_mentions w ex_mention GENERIC initial
      (messageCreate ex_cfg_no_mentions w ex_mention initial)
  ∧ ∀ c, SendTyping c
         ∉ (messageCreate ex_cfg_no_mentions w ex_mention initial).2.
Proof.
  intros w.
  apply (messageCreate_mentions_off ex_cfg_no_mentions w ex_mention initial);
    try reflexivity.
  discriminate.
Defined.

(** X17.  The handler's promise can only reject on the mention/reply
    branch: for a guild message with mention handling on that mentions the
    agent or carries a reference. *)
Theorem messageCreate_rejects_only_on_mentions cfg w m s error :
  (messageCreate cfg w m s).1.1 = Rejected error →
  guild m ≠ None
  ∧ RESPOND_TO_MENTIONS cfg = true
  ∧ (mentions_has_client m = true ∨ is_Some (reference m)).
Proof.
  unfold messageCreate.
  destruct (Js.truthy (CHANNEL_ID cfg) && _); [done|].
  destruct (is_client_user w _); [done|].
  destruct (bot (author m) && _); [done|].
  destruct (Js.startsWith "!" (content m)); [done|].
  destruct (guild m) as [g|].
  2:{ destruct (RESPOND_TO_DMS cfg); [|done]. by rewrite detached_resolves. }
  destruct (RESPOND_TO_MENTIONS cfg); simpl.
  2:{ destruct (RESPOND_TO_GENERIC cfg); [|done]. by rewrite detached_resolves. }
  destruct (mentions_has_client m); simpl; [by auto|].
  destruct (reference m) as [r|]; simpl.
  - intros _. split; [done|]. split; [done|]. right. by eexists.
  - destruct (RESPOND_TO_GENERIC cfg); [|done]. by rewrite detached_resolves.
Qed.

(** messageCreate_rejects_only_on_mentions at sample data. *)
Lemma messageCreate_rejects_only_on_mentions_witness :
  guild ex_mention ≠ None
  ∧ RESPOND_TO_MENTIONS (with_batching false ex_cfg) = true
  ∧ (mentions_has_client ex_mention = true ∨ is_Some (reference ex_mention)).
Proof.
  apply (messageCreate_rejects_only_on_mentions (with_batching false ex_cfg)
           (ex_world ex_m0_by_bob (Resolved "hi") (Rejected "Missing Access"))
           ex_mention initial "Missing Access").
  reflexivity.
Defined.

(** Case analysis on a handler run, for statements on its effects. *)
Ltac silent_cases :=
  unfold try_catch, mbind, M_bind, mret, M_ret, await, engine, detached,
    console_error;
  repeat (simpl;
    match goal with
    | H : _ && false = true |- _ => rewrite andb_false_r in H; discriminate H
    | |- context [if ?b then _ else _] => destruct b eqn:?
    | |- context [match sendMessage_result ?w ?m ?t ?c ?p with _ => _ end] =>
        destruct (sendMessage_result w m t c p) eqn:?
    | |- context [match fetch_result ?w ?c ?i with _ => _ end] =>
        destruct (fetch_result w c i) eqn:?
    | |- context [let '(_, _) := addMessageToBatch ?cfg ?n ?m ?t ?s in _] =>
        let H := fresh in
        pose proof (addMessageToBatch_out_silent cfg n m t s) as H;
        destruct (addMessageToBatch cfg n m t s)
    | |- context [match reference ?m with _ => _ end] =>
        destruct (reference m) as [[[?|]]|] eqn:?
    end);
  simpl in *; rewrite ?app_nil_r; repeat constructor; try done.

(** X18.  For an event in a channel where replies are not allowed the
    handler sends neither a reply nor a typing indicator. *)
Theorem messageCreate_observe_only cfg w m s :
  shouldRespondInChannel cfg (channel_id (channel m)) = false →
  Forall silent (messageCreate cfg w m s).2.
Proof.
  intros Hc. unfold messageCreate, processAndSendMessage, reply_lookup.
  rewrite Hc. silent_cases.
Qed.

(** messageCreate_observe_only at sample data. *)
Lemma messageCreate_observe_only_witness :
  Forall silent
    (messageCreate ex_cfg_observe
       (ex_world ex_m0_by_bob (Resolved "hi") (Resolved ())) ex_mention
       initial).2.
Proof.
  apply (messageCreate_observe_only ex_cfg_observe _ ex_mention initial).
  reflexivity.
Defined.

(** Case analysis on a handler run, for statements on its state. *)
Ltac state_cases :=
  unfold try_catch, mbind, M_bind, mret, M_ret, await, engine, detached,
    console_error;
  repeat (simpl;
    match goal with
    | |- context [if ?b then _ else _] => destruct b eqn:?
    | |- context [match sendMessage_result ?w ?m ?t ?c ?p with _ => _ end] =>
        destruct (sendMessage_result w m t c p) eqn:?
    | |- context [match fetch_result ?w ?c ?i with _ => _ end] =>
        destruct (fetch_result w c i) eqn:?
    | |- context [match sendTyping_result ?w ?c with _ => _ end] =>
        destruct (sendTyping_result w c) eqn:?
    | |- context [match reply_result ?w ?m ?x with _ => _ end] =>
        destruct (reply_result w m x) eqn:?
    | |- context [match reference ?m with _ => _ end] =>
        destruct (reference m) as [[[?|]]|] eqn:?
    | |- context [match guild ?m with _ => _ end] =>
        destruct (guild m) eqn:?
    end);
  simpl in *; try done.

(** X19.  With batching disabled the handler never changes the buffers, the
    timers or the suspended drains. *)
Theorem messageCreate_immediate_keeps_state cfg w m s :
  MESSAGE_BATCH_ENABLED cfg = false →
  (messageCreate cfg w m s).1.2 = s.
Proof.
  intros Hb. unfold messageCreate, processAndSendMessage, reply_lookup.
  rewrite Hb. state_cases.
Qed.

(** messageCreate_immediate_keeps_state at sample data. *)
Lemma messageCreate_immediate_keeps_state_witness :
  (messageCreate (with_batching false ex_cfg)
     (ex_world ex_m0_by_bob (Resolved "hi") (Resolved ())) ex_mention
     ex_one_buffered).1.2
  = ex_one_buffered.
Proof.
  apply (messageCreate_immediate_keeps_state (with_batching false ex_cfg) _
           ex_mention ex_one_buffered).
  reflexivity.
Defined.

(** X20.  With batching enabled the handler itself never replies. *)
Theorem messageCreate_batched_never_replies cfg w m s m' text :
  MESSAGE_BATCH_ENABLED cfg = true →
  Reply m' text ∉ (messageCreate cfg w m s).2.
Proof.
  intros Hb. unfold messageCreate, processAndSendMessage, reply_lookup.
  rewrite Hb.
  unfold try_catch, mbind, M_bind, mret, M_ret, await, engine, detached,
    console_error.
  repeat (simpl;
    match goal with
    | |- context [if ?b then _ else _] => destruct b eqn:?
    | |- context [match fetch_result ?w ?c ?i with _ => _ end] =>
        destruct (fetch_result w c i) eqn:?
    | |- context [match sendTyping_result ?w ?c with _ => _ end] =>
        destruct (sendTyping_result w c) eqn:?
    | |- context [let '(_, _) := addMessageToBatch ?cfg ?n ?m ?t ?s in _] =>
        let H := fresh in
        pose proof (silent_not_reply _ m' text
                      (addMessageToBatch_out_silent cfg n m t s)) as H;
        destruct (addMessageToBatch cfg n m t s)
    | |- context [match reference ?m with _ => _ end] =>
        destruct (reference m) as [[[?|]]|] eqn:?
    | |- context [match guild ?m with _ => _ end] =>
        destruct (guild m) eqn:?
    end);
  simpl in *; intros Hin; mem_inv Hin; done.
Qed.

(** messageCreate_batched_never_replies at sample data. *)
Lemma messageCreate_batched_never_replies_witness :
  Reply ex_mention "hi"
    ∉ (messageCreate ex_cfg
         (ex_world ex_m0_by_bob (Resolved "hi") (Resolved ())) ex_mention
         initial).2.
Proof.
  apply (messageCreate_batched_never_replies ex_cfg _ ex_mention initial
           ex_mention "hi").
  reflexivity.
Defined.

(** ** The firing of the random event timer *)

(** The boolean test of the trial is [trial < FIRING_PROBABILITY]. *)
Lemma trial_succeeds p (tw : TimerWorld) :
  negb (Qle_bool p (trial tw)) = true ↔ (trial tw < p)%Q.
Proof.
  rewrite negb_true_iff. split.
  - intros H. apply Qnot_le_lt. intros Hle.
    apply Qle_bool_iff in Hle. congruence.
  - intros H. destruct (Qle_bool p (trial tw)) eqn:E; [|done].
    apply Qle_bool_iff in E. by apply Qlt_not_le in H.
Qed.

(** X21.  A firing whose draw is not below [FIRING_PROBABILITY] only
    re-arms the timer after 1000 ms. *)
Theorem timerFired_trial_fails cfg p tw :
  (p <= trial tw)%Q →
  timerFired cfg p tw = (Resolved (), [ScheduleRestart 1000]).
Proof.
  intros H. unfold timerFired. apply Qle_bool_iff in H. by rewrite H.
Qed.

(** timerFired_trial_fails at sample data. *)
Lemma timerFired_trial_fails_witness :
  timerFired ex_cfg (1 # 10) (ex_timer_world (1 # 2) (Resolved "hi"))
  = (Resolved (), [ScheduleRestart 1000]).
Proof.
  apply (timerFired_trial_fails ex_cfg (1 # 10)
           (ex_timer_world (1 # 2) (Resolved "hi"))).
  unfold Qle. simpl. lia.
Defined.

(** Resolving the channel never re-arms the timer. *)
Lemma timer_channel_no_restart cfg tw delay :
  ScheduleRestart delay ∉ (timer_channel cfg tw).2.
Proof.
  unfold timer_channel. intros H.
  destruct (CHANNEL_ID cfg) as [id|]; [|mem_inv H].
  destruct (Js.truthy (Some id)); [|mem_inv H].
  destruct (channels_fetch_result tw id) as [[f|]|];
    [destruct (has_send f)| |]; mem_inv H.
Qed.

(** X22.  A firing either completes and ends by re-arming the timer after
    1000 ms, or rejects; it rejects only when the trial succeeded and
    [sendTimerMessage] rejected, and then the timer is not re-armed. *)
Theorem timerFired_restart_or_reject cfg p tw :
  let r := timerFired cfg p tw in
  (r.1 = Resolved () ∧ last r.2 = Some (ScheduleRestart 1000))
  ∨ (∃ error, r.1 = Rejected error
       ∧ (trial tw < p)%Q
       ∧ sendTimerMessage_result tw (timer_channel cfg tw).1 = Rejected error
       ∧ last r.2 = Some (SendTimerMessage (timer_channel cfg tw).1)
       ∧ ∀ delay, ScheduleRestart delay ∉ r.2).
Proof.
  unfold timerFired.
  destruct (negb (Qle_bool p (trial tw))) eqn:Ht; [|by left].
  apply trial_succeeds in Ht.
  pose proof (timer_channel_no_restart cfg tw) as Hn.
  destruct (timer_channel cfg tw) as [channel fetched]. cbn [fst snd] in *.
  destruct (sendTimerMessage_result tw channel) as [msg|error] eqn:Hs.
  - left. split; [done|]. cbn [fst snd]. by rewrite !app_assoc, last_snoc.
  - right. exists error. cbn [fst snd]. split; [done|]. split; [done|].
    split; [done|]. split; [by rewrite last_snoc|].
    intros delay H. mem_inv H. by apply (Hn delay).
Qed.

(** X23.  A firing sends a text to a channel exactly when the trial
    succeeded, a non-empty [CHANNEL_ID] is configured, the fetch returned
    that channel with a [send] property, and [sendTimerMessage] resolved with
    that non-empty text. *)
Theorem timerFired_sends_iff cfg p tw target text :
  ChannelSend target text ∈ (timerFired cfg p tw).2
  ↔ (trial tw < p)%Q
    ∧ (∃ id, CHANNEL_ID cfg = Some id ∧ id ≠ EmptyString
         ∧ channels_fetch_result tw id = Resolved (Some target))
    ∧ has_send target = true
    ∧ sendTimerMessage_result tw (Some target) = Resolved text
    ∧ text ≠ EmptyString.
Proof.
  unfold timerFired, timer_channel, Js.truthy, Js.nonempty.
  destruct (negb (Qle_bool p (trial tw))) eqn:Ht.
  2:{ assert (¬ (trial tw < p)%Q) by (rewrite <- trial_succeeds; congruence).
      split; [intros H'; mem_inv H'|tauto]. }
  apply trial_succeeds in Ht.
  destruct (CHANNEL_ID cfg) as [id|];
    [destruct (String.eqb_spec id EmptyString) as [->|Hid]; simpl;
     [|destruct (channels_fetch_result tw id) as [[f|]|e] eqn:Hf;
       [destruct (has_send f) eqn:Hs| |]]|]; simpl;
    match goal with
    | |- context [sendTimerMessage_result tw ?c] =>
        destruct (sendTimerMessage_result tw c) as [msg|e'] eqn:Hm
    end; simpl;
    try (destruct (String.eqb_spec msg EmptyString) as [->|Hmsg]; simpl);
    try match goal with
    | |- context [channel_send_result tw ?c ?m] =>
        destruct (channel_send_result tw c m)
    end;
    (split;
     [intros H; mem_inv H; injection H as -> ->;
      (split; [done|split; [by exists id|done]])
     |intros (_ & (id' & Hid' & Hne' & Hf') & Hs' & Hm' & Hne);
      first [congruence
            |assert (target = f) by congruence;
             assert (text = msg) by congruence; subst; mem_here]]).
Qed.

(** X24.  Without a configured channel a successful trial still calls
    [sendTimerMessage], with no channel, and nothing is fetched or sent. *)
Theorem timerFired_without_channel cfg p tw :
  Js.truthy (CHANNEL_ID cfg) = false →
  (trial tw < p)%Q →
  timerFired cfg p tw
  = match sendTimerMessage_result tw None with
    | Resolved _ => (Resolved (), [SendTimerMessage None; ScheduleRestart 1000])
    | Rejected error => (Rejected error, [SendTimerMessage None])
    end.
Proof.
  intros Hc Ht. apply trial_succeeds in Ht.
  unfold timerFired, timer_channel. rewrite Ht.
  destruct (CHANNEL_ID cfg) as [id|]; [rewrite Hc|];
    by destruct (sendTimerMessage_result tw None).
Qed.

(** timerFired_without_channel at sample data. *)
Lemma timerFired_without_channel_witness :
  timerFired ex_cfg (1 # 2) (ex_timer_world (1 # 10) (Resolved "hi"))
  = match sendTimerMessage_result
            (ex_timer_world (1 # 10) (Resolved "hi")) None with
    | Resolved _ => (Resolved (), [SendTimerMessage None; ScheduleRestart 1000])
    | Rejected error => (Rejected error, [SendTimerMessage None])
    end.
Proof.
  apply (timerFired_without_channel ex_cfg (1 # 2)
           (ex_timer_world (1 # 10) (Resolved "hi"))).
  - reflexivity.
  - reflexivity.
Defined.
